(** * MedicalAi client adapters: [aiService.ts] and the Firebase configuration

    A shallow embedding of the asynchronous wrapper layer of the client
    (chat adapter, image-analysis adapter, voice adapter, storage
    configuration) together with the properties of its specification.

    Conventions of the embedding.
    - A JavaScript string is the list of its UTF-16 code units.
    - An [async] function is a resumption ([Prog]): a tree of synchronous
      effects and suspension points, run task by task by an event loop.
    - A promise built with [new Promise] over browser callbacks is a
      single-assignment cell in a [World]; the callbacks the source
      installs are stored as data and run by the event loop. *)

From Stdlib Require Import NArith List Ascii String Lia Bool.
From Stdlib Require Import DecimalString DecimalN.
From stdpp Require Import gmap strings.
Import ListNotations.

Local Open Scope N_scope.

(* ===================================================================== *)
(** * JavaScript values used by the adapters                              *)
(* ===================================================================== *)

Module Js.

(** A string value: its UTF-16 code units. *)
Definition jsstring : Type := list N.

(** A source literal (the literals of this program are ASCII). *)
Definition lit (s : string) : jsstring :=
  map N_of_ascii (list_ascii_of_string s).

(** [!s] for a string: only the empty string is falsy. *)
Definition falsy (s : jsstring) : bool :=
  match s with [] => true | _ :: _ => false end.

(** ECMAScript [WhiteSpace] and [LineTerminator] code points, the set
    [String.prototype.trim] strips. *)
Definition is_white_space (c : N) : bool :=
  (c =? 9) || (c =? 10) || (c =? 11) || (c =? 12) || (c =? 13) ||
  (c =? 32) || (c =? 160) || (c =? 5760) ||
  ((8192 <=? c) && (c <=? 8202)) ||
  (c =? 8232) || (c =? 8233) || (c =? 8239) || (c =? 8287) ||
  (c =? 12288) || (c =? 65279).

Fixpoint trimStart (s : jsstring) : jsstring :=
  match s with
  | [] => []
  | c :: r => if is_white_space c then trimStart r else s
  end.

Definition trimEnd (s : jsstring) : jsstring := rev (trimStart (rev s)).

(** [s.trim()] *)
Definition trim (s : jsstring) : jsstring := trimEnd (trimStart s).

(** [s.split(sep)] for a one-code-unit separator: never the empty array. *)
Fixpoint split (sep : N) (s : jsstring) : list jsstring :=
  match s with
  | [] => [[]]
  | c :: r =>
      if c =? sep then [] :: split sep r
      else match split sep r with
           | [] => [[c]]
           | h :: t => (c :: h) :: t
           end
  end.

(** [n.toString()] for a non-negative integer: its decimal digits. *)
Definition toString (n : N) : jsstring :=
  lit (NilEmpty.string_of_uint (N.to_uint n)).

(** An [Error] object as the handlers read it: [name] and [message]. *)
Record JsError := mkError { err_name : jsstring; err_message : jsstring }.

(** [new Error(m)] *)
Definition Error (m : jsstring) : JsError := mkError (lit "Error") m.

(** [new TypeError(m)], raised by the engine. *)
Definition TypeError (m : jsstring) : JsError := mkError (lit "TypeError") m.

(** Completion of a synchronous evaluation: a value or a thrown error. *)
Inductive Completion (A : Type) : Type :=
| Normal (a : A)
| Abrupt (e : JsError).
Arguments Normal {A} a.
Arguments Abrupt {A} e.

(** Settlement of a promise returned by an [async] function. *)
Inductive Outcome (A : Type) : Type :=
| Resolved (a : A)
| Rejected (e : JsError).
Arguments Resolved {A} a.
Arguments Rejected {A} e.

(** A promise cell: settled at most once. *)
Inductive PState (V E : Type) : Type :=
| Pending
| Fulfilled (v : V)
| RejectedWith (e : E).
Arguments Pending {V E}.
Arguments Fulfilled {V E} v.
Arguments RejectedWith {V E} e.

(** The [resolve] and [reject] functions handed to a promise executor:
    they act on a pending promise and are no-ops afterwards. *)
Definition resolve {V E} (v : V) (p : PState V E) : PState V E :=
  match p with Pending => Fulfilled v | _ => p end.

Definition reject {V E} (e : E) (p : PState V E) : PState V E :=
  match p with Pending => RejectedWith e | _ => p end.

Definition settled {V E} (p : PState V E) : bool :=
  match p with Pending => false | _ => true end.

End Js.
Import Js.

(* ===================================================================== *)
(** * The host services the adapters call                                 *)
(* ===================================================================== *)

(** The generative-AI SDK, as far as the adapters use it. *)
Module Gemini.

(** [new GoogleGenerativeAI(apiKey)] *)
Record GoogleGenerativeAI := { client_apiKey : jsstring }.

(** The result of [getGenerativeModel({model}, {apiVersion})]. *)
Record GenerativeModel := {
  model_client : GoogleGenerativeAI;
  model_name : jsstring;
  model_apiVersion : jsstring
}.

Definition getGenerativeModel (c : GoogleGenerativeAI) (name version : jsstring)
  : GenerativeModel :=
  {| model_client := c; model_name := name; model_apiVersion := version |}.

(** [{ inlineData: { data, mimeType } }]; [data] is [None] for [undefined]. *)
Record InlineData := { data : option jsstring; mimeType : jsstring }.

Inductive Part : Type :=
| PText (s : jsstring)
| PInline (d : InlineData).

(** Argument of [generateContent]: a prompt string or an array of parts. *)
Inductive Content : Type :=
| Prompt (s : jsstring)
| Parts (l : list Part).

Record Request := { req_model : GenerativeModel; req_content : Content }.

(** [response.text()] returns the text or throws. *)
Record Response := { text : Completion jsstring }.

Record GenerateContentResult := { response : Response }.

End Gemini.
Import Gemini.

(** The browser's [File] and [FileReader]. *)
Module Files.

Record File := {
  file_name : jsstring;
  file_type : jsstring;
  file_bytes : list Byte.byte
}.

(** What [readAsDataURL] ends with: the data URL, or a failed read. *)
Inductive ReadOutcome : Type :=
| Loaded (dataUrl : jsstring)
| Failed.

Inductive ReaderEvent : Type := RLoad | RError | RLoadEnd.

(** The progress events a reader fires: [load] or [error], then [loadend]. *)
Definition reader_events (o : ReadOutcome) : list ReaderEvent :=
  match o with
  | Loaded _ => [RLoad; RLoadEnd]
  | Failed => [RError; RLoadEnd]
  end.

(** [reader.result] once the read has ended: [null] after a failure. *)
Definition reader_result (o : ReadOutcome) : option jsstring :=
  match o with
  | Loaded d => Some d
  | Failed => None
  end.

End Files.
Import Files.

(** What the host answers to the two asynchronous requests. *)
Record Services := {
  generateContent : Request -> Completion GenerateContentResult;
  readAsDataURL : File -> ReadOutcome
}.

(* ===================================================================== *)
(** * Console                                                             *)
(* ===================================================================== *)

Inductive Level : Type := LvlLog | LvlError.

(** An argument of a console call: a string, the result object of the
    service, or the [{ error, message, stack }] summary of a caught
    error (its [stack] is not kept). *)
Inductive LogArg : Type :=
| LStr (s : jsstring)
| LResult (r : GenerateContentResult)
| LErrorInfo (name message : jsstring).

Record LogEntry := { level : Level; args : list LogArg }.

Definition console_log (l : list LogArg) : LogEntry :=
  {| level := LvlLog; args := l |}.
Definition console_error (l : list LogArg) : LogEntry :=
  {| level := LvlError; args := l |}.

(* ===================================================================== *)
(** * Async functions as resumptions                                      *)
(* ===================================================================== *)

Module Async.

(** The body of an [async] function. [Console] and [DateNow] are
    synchronous; the three [Await] nodes are suspension points. *)
Inductive Prog (A : Type) : Type :=
| Ret (a : A)
| Throw (e : JsError)
| Console (entry : LogEntry) (k : Prog A)
| DateNow (k : N -> Prog A)
| AwaitGenerate (req : Request) (k : Completion GenerateContentResult -> Prog A)
| AwaitRead (f : File) (k : Completion (option jsstring) -> Prog A)
| AwaitValue (k : Prog A).
Arguments Ret {A} a.
Arguments Throw {A} e.
Arguments Console {A} entry k.
Arguments DateNow {A} k.
Arguments AwaitGenerate {A} req k.
Arguments AwaitRead {A} f k.
Arguments AwaitValue {A} k.

Fixpoint bind {A B} (p : Prog A) (f : A -> Prog B) : Prog B :=
  match p with
  | Ret a => f a
  | Throw e => Throw e
  | Console l k => Console l (bind k f)
  | DateNow k => DateNow (fun t => bind (k t) f)
  | AwaitGenerate r k => AwaitGenerate r (fun c => bind (k c) f)
  | AwaitRead fl k => AwaitRead fl (fun c => bind (k c) f)
  | AwaitValue k => AwaitValue (bind k f)
  end.

#[export] Instance prog_ret : MRet Prog := fun A a => Ret a.
#[export] Instance prog_bind : MBind Prog := fun A B f p => bind p f.

(** [try { body } catch (error) { handler }] *)
Fixpoint try_catch {A} (body : Prog A) (handler : JsError -> Prog A) : Prog A :=
  match body with
  | Ret a => Ret a
  | Throw e => handler e
  | Console l k => Console l (try_catch k handler)
  | DateNow k => DateNow (fun t => try_catch (k t) handler)
  | AwaitGenerate r k => AwaitGenerate r (fun c => try_catch (k c) handler)
  | AwaitRead fl k => AwaitRead fl (fun c => try_catch (k c) handler)
  | AwaitValue k => AwaitValue (try_catch k handler)
  end.

(** A synchronous evaluation that may throw. *)
Definition of_completion {A} (c : Completion A) : Prog A :=
  match c with Normal a => Ret a | Abrupt e => Throw e end.

Definition log (l : list LogArg) : Prog unit := Console (console_log l) (Ret tt).
Definition log_error (l : list LogArg) : Prog unit := Console (console_error l) (Ret tt).
Definition now : Prog N := DateNow Ret.

(** [await p] for the promise of a remote call: a rejection is thrown
    at the [await]. *)
Definition await_generate (req : Request) : Prog GenerateContentResult :=
  AwaitGenerate req of_completion.
Definition await_read (f : File) : Prog (option jsstring) :=
  AwaitRead f of_completion.
(** [await v] for a value that is not a promise: one turn of the loop. *)
Definition await_value {A} (v : A) : Prog A := AwaitValue (Ret v).

End Async.
Import Async.

(* ===================================================================== *)
(** * The event loop for async functions                                  *)
(* ===================================================================== *)

Module Loop.

(** The promise of [analyzeImage]'s file read: the executor receives
    [resolve] only and installs one callback, on [loadend]. *)
Inductive ReaderCallback : Type := ResolveWithResult.

Record ReaderHandlers := {
  onload : option ReaderCallback;
  onerror : option ReaderCallback;
  onloadend : option ReaderCallback
}.

Definition read_executor_handlers : ReaderHandlers :=
  {| onload := None; onerror := None; onloadend := Some ResolveWithResult |}.

Definition reader_handler (h : ReaderHandlers) (ev : ReaderEvent) : option ReaderCallback :=
  match ev with
  | RLoad => onload h
  | RError => onerror h
  | RLoadEnd => onloadend h
  end.

Definition reader_dispatch (h : ReaderHandlers) (result : option jsstring)
    (p : PState (option jsstring) JsError) (ev : ReaderEvent)
  : PState (option jsstring) JsError :=
  match reader_handler h ev with
  | Some ResolveWithResult => resolve result p
  | None => p
  end.

(** The state of the read promise once the reader has fired its events. *)
Definition file_read_promise (o : ReadOutcome) : PState (option jsstring) JsError :=
  fold_left (reader_dispatch read_executor_handlers (reader_result o))
            (reader_events o) Pending.

(** What a task leaves behind, in order. *)
Inductive Event : Type :=
| EvConsole (e : LogEntry)
| EvGenerate (req : Request)
| EvRead (f : File).

(** A call of an async function: not yet entered, parked at an
    [await] whose request is out, or settled. *)
Inductive Thread (A : Type) : Type :=
| Fresh (p : Prog A)
| Parked (p : Prog A)
| Finished (o : Outcome A).
Arguments Fresh {A} p.
Arguments Parked {A} p.
Arguments Finished {A} o.

(** Run to the next suspension point, in a task during which the
    clock does not tick: every reading of the task is [clock]. (The
    tasks of [Ticking] below let the clock move between readings.) *)
Fixpoint sync {A} (clock : N) (p : Prog A) : list Event * Thread A :=
  match p with
  | Ret a => ([], Finished (Resolved a))
  | Throw e => ([], Finished (Rejected e))
  | Console l k =>
      let '(evs, th) := sync clock k in (EvConsole l :: evs, th)
  | DateNow k => sync clock (k clock)
  | AwaitGenerate req _ => ([EvGenerate req], Parked p)
  | AwaitRead f _ => ([EvRead f], Parked p)
  | AwaitValue _ => ([], Parked p)
  end.

(** One task of the thread: enter the body, or continue after the
    awaited promise has settled. *)
Definition resume {A} (sv : Services) (clock : N) (th : Thread A)
  : list Event * Thread A :=
  match th with
  | Fresh p => sync clock p
  | Finished _ => ([], th)
  | Parked p =>
      match p with
      | AwaitGenerate req k => sync clock (k (generateContent sv req))
      | AwaitRead f k =>
          match file_read_promise (readAsDataURL sv f) with
          | Fulfilled v => sync clock (k (Normal v))
          | RejectedWith e => sync clock (k (Abrupt e))
          | Pending => ([], th)
          end
      | AwaitValue k => sync clock k
      | _ => sync clock p
      end
  end.

(** The tasks of one call, at the given clock readings. *)
Fixpoint run_tasks {A} (sv : Services) (clocks : list N) (th : Thread A)
  : list Event * Thread A :=
  match clocks with
  | [] => ([], th)
  | t :: rest =>
      let '(evs, th') := resume sv t th in
      let '(evs', th'') := run_tasks sv rest th' in
      (evs ++ evs', th'')
  end.

Definition call {A} (sv : Services) (clocks : list N) (p : Prog A)
  : list Event * Thread A :=
  run_tasks sv clocks (Fresh p).

Definition requests (evs : list Event) : list Request :=
  omap (fun e => match e with EvGenerate r => Some r | _ => None end) evs.

(** ** Two calls in flight on the same loop *)

Inductive Side : Type := L | R.

Record Pair (A : Type) := {
  clock : N;
  journal : list (Side * Event);
  left : Thread A;
  right : Thread A
}.
Arguments clock {A} _.
Arguments journal {A} _.
Arguments left {A} _.
Arguments right {A} _.

(** A schedule lists the tasks as the loop runs them: whose task it
    is and how many milliseconds passed since the task before. *)
Definition Schedule : Type := list (Side * N).

Definition step2 {A} (svL svR : Services) (c : Pair A) (s : Side * N) : Pair A :=
  let t := clock c + snd s in
  match fst s with
  | L => let '(evs, th) := resume svL t (left c) in
         {| clock := t; journal := journal c ++ map (pair L) evs;
            left := th; right := right c |}
  | R => let '(evs, th) := resume svR t (right c) in
         {| clock := t; journal := journal c ++ map (pair R) evs;
            left := left c; right := th |}
  end.

Definition run2 {A} (svL svR : Services) (t0 : N) (pL pR : Prog A) (s : Schedule)
  : Pair A :=
  fold_left (step2 svL svR) s
    {| clock := t0; journal := []; left := Fresh pL; right := Fresh pR |}.

End Loop.
Import Loop.

(* ===================================================================== *)
(** * Tasks during which the clock ticks                                  *)
(* ===================================================================== *)

(** The same loop, with a clock that may move inside a task: between
    two readings of one task ([Date.now()], then [new Date()]) time
    passes. The loop of [Loop] is the case of no tick. *)
Module Ticking.

(** Run to the next suspension point. [clock] is what the first
    reading of the task returns; after each reading the clock moves on
    by the next of [ticks], and stands still once they are used up. *)
Fixpoint sync {A} (clock : N) (ticks : list N) (p : Prog A) : list Event * Thread A :=
  match p with
  | Ret a => ([], Finished (Resolved a))
  | Throw e => ([], Finished (Rejected e))
  | Console l k =>
      let '(evs, th) := sync clock ticks k in (EvConsole l :: evs, th)
  | DateNow k =>
      match ticks with
      | [] => sync clock [] (k clock)
      | d :: later => sync (clock + d) later (k clock)
      end
  | AwaitGenerate req _ => ([EvGenerate req], Parked p)
  | AwaitRead f _ => ([EvRead f], Parked p)
  | AwaitValue _ => ([], Parked p)
  end.

Definition resume {A} (sv : Services) (clock : N) (ticks : list N) (th : Thread A)
  : list Event * Thread A :=
  match th with
  | Fresh p => sync clock ticks p
  | Finished _ => ([], th)
  | Parked p =>
      match p with
      | AwaitGenerate req k => sync clock ticks (k (generateContent sv req))
      | AwaitRead f k =>
          match file_read_promise (readAsDataURL sv f) with
          | Fulfilled v => sync clock ticks (k (Normal v))
          | RejectedWith e => sync clock ticks (k (Abrupt e))
          | Pending => ([], th)
          end
      | AwaitValue k => sync clock ticks k
      | _ => sync clock ticks p
      end
  end.

(** The tasks of one call: for each, the clock at its first reading
    and the ticks between its readings. *)
Fixpoint run_tasks {A} (sv : Services) (tasks : list (N * list N)) (th : Thread A)
  : list Event * Thread A :=
  match tasks with
  | [] => ([], th)
  | (t, ticks) :: rest =>
      let '(evs, th') := resume sv t ticks th in
      let '(evs', th'') := run_tasks sv rest th' in
      (evs ++ evs', th'')
  end.

(** A task of a schedule: whose it is, how long after the task before
    it begins, and the ticks between its readings. *)
Record Task := {
  task_side : Side;
  task_delay : N;
  task_ticks : list N
}.

(** The time a task takes. *)
Definition elapsed (ticks : list N) : N := fold_right N.add 0 ticks.

Definition step2 {A} (svL svR : Services) (c : Pair A) (k : Task) : Pair A :=
  let t := clock c + task_delay k in
  match task_side k with
  | L => let '(evs, th) := resume svL t (task_ticks k) (left c) in
         {| clock := t + elapsed (task_ticks k);
            journal := journal c ++ map (pair L) evs;
            left := th; right := right c |}
  | R => let '(evs, th) := resume svR t (task_ticks k) (right c) in
         {| clock := t + elapsed (task_ticks k);
            journal := journal c ++ map (pair R) evs;
            left := left c; right := th |}
  end.

(** Two calls in flight, from the clock [t0] on. *)
Definition run2 {A} (svL svR : Services) (t0 : N) (pL pR : Prog A) (s : list Task)
  : Pair A :=
  fold_left (step2 svL svR) s
    {| clock := t0; journal := []; left := Fresh pL; right := Fresh pR |}.

(** The tasks of one side in a schedule begun at [t0]: the clock at
    the first reading of each, and its ticks. *)
Fixpoint tasks_of (sd : Side) (t0 : N) (s : list Task) : list (N * list N) :=
  match s with
  | [] => []
  | k :: rest =>
      let t := t0 + task_delay k in
      let later := tasks_of sd (t + elapsed (task_ticks k)) rest in
      match task_side k, sd with
      | L, L | R, R => (t, task_ticks k) :: later
      | _, _ => later
      end
  end.

End Ticking.

(* ===================================================================== *)
(** * Chat adapter                                                        *)
(* ===================================================================== *)

Inductive Role : Type := user | assistant.

Record Message := {
  id : jsstring;
  role : Role;
  content : jsstring;
  timestamp : N
}.

Module medicalChatService.

Definition prompt_head : jsstring := lit
"You are an AI medical assistant. Your role is to:
1. Ask relevant questions about symptoms
2. Provide preliminary analysis
3. Recommend appropriate medications and treatments
4. Give recovery procedures and lifestyle advice
5. Always remind users to seek professional medical help for serious conditions

User message: ".

Definition prompt_tail : jsstring := lit
"

Please respond in a professional, caring manner.".

Definition prompt (message : jsstring) : jsstring :=
  prompt_head ++ message ++ prompt_tail.

Definition chat_failure_prefix : jsstring := lit "Failed to get AI response: ".

Definition sendMessage (genAI : GoogleGenerativeAI) (message : jsstring) : Prog Message :=
  try_catch
    (log [LStr (lit "Starting chat with message:"); LStr message];;
     let model := getGenerativeModel genAI (lit "gemini-1.5-flash") (lit "v1") in
     let prompt := prompt message in
     log [LStr (lit "Sending message to Gemini...")];;
     result ← await_generate {| req_model := model; req_content := Prompt prompt |};
     log [LStr (lit "Received response from Gemini:"); LResult result];;
     response ← await_value (response result);
     text ← of_completion (text response);
     log [LStr (lit "Response text:"); LStr text];;
     if falsy text then Throw (Error (lit "Empty response from AI"))
     else
       i ← now;
       d ← now;
       mret {| id := toString i; role := assistant;
               content := trim text; timestamp := d |})
    (fun error =>
       log_error [LStr (lit "Detailed chat error:");
                  LErrorInfo (err_name error) (err_message error)];;
       Throw (Error (chat_failure_prefix ++ err_message error))).

End medicalChatService.

(* ===================================================================== *)
(** * Image analysis adapter                                              *)
(* ===================================================================== *)

Module medicalAnalysisService.

Definition prompt : jsstring := lit
"You are a medical professional analyzing this medical image. Please provide:
1. A detailed analysis of what you observe
2. Any potential abnormalities or concerns
3. Recommendations for follow-up
4. Important notes for the patient

Please be thorough but explain in terms a patient can understand.".

Definition analysis_failure_prefix : jsstring := lit "Failed to analyze medical image: ".

(** The engine's message for a property read on [null] (V8's wording;
    other engines word it differently, nothing below depends on it). *)
Definition null_member_message (member : jsstring) : jsstring :=
  lit "Cannot read properties of null (reading '" ++ member ++ lit "')".

(** [data.split(',')] where [data] may be [null] at run time. *)
Definition split_member (d : option jsstring) (sep : N) : Completion (list jsstring) :=
  match d with
  | Some s => Normal (split sep s)
  | None => Abrupt (TypeError (null_member_message (lit "split")))
  end.

Definition comma : N := 44.

Definition analyzeImage (genAI : GoogleGenerativeAI) (file : File) : Prog jsstring :=
  try_catch
    (log [LStr (lit "Starting image analysis for:"); LStr (file_name file)];;
     d ← await_read file;
     pieces ← of_completion (split_member d comma);
     let imageData := {| data := pieces !! 1%nat; mimeType := file_type file |} in
     let visionModel := getGenerativeModel genAI (lit "gemini-1.5-flash") (lit "v1") in
     log [LStr (lit "Sending image to Gemini for analysis...")];;
     result ← await_generate
                {| req_model := visionModel;
                   req_content := Parts [PText prompt; PInline imageData] |};
     log [LStr (lit "Received analysis from Gemini:"); LResult result];;
     response ← await_value (response result);
     text ← of_completion (text response);
     log [LStr (lit "Analysis text:"); LStr text];;
     if falsy text then Throw (Error (lit "Empty response from AI"))
     else mret text)
    (fun error =>
       log_error [LStr (lit "Image analysis error:");
                  LErrorInfo (err_name error) (err_message error)];;
       Throw (Error (analysis_failure_prefix ++ err_message error))).

End medicalAnalysisService.

(* ===================================================================== *)
(** * Voice adapter                                                       *)
(* ===================================================================== *)

Module Voice.

(** Values that settle the voice promises or reach a callback. An
    event object is kept as the two fields the callbacks read:
    [results] (transcripts by result and alternative) and [error]. *)
Inductive Value : Type :=
| VUndefined
| VString (s : jsstring)
| VEvent (results : list (list jsstring)) (error : option jsstring).

(** The statements of the callbacks the adapter installs. *)
Inductive Stmt : Type :=
| SLog (msg : jsstring)             (* console.log(msg) *)
| SLogError (msg : jsstring)        (* console.error(msg, error) *)
| SResolve                          (* resolve() *)
| SReject                           (* reject(error): the callback's argument *)
| SClearTimeout (timer : nat)       (* clearTimeout(timeout) *)
| SResolveTranscript                (* resolve(event.results[0][0].transcript) *)
| SRejectEventError.                (* reject(event.error) *)

Definition Callback : Type := list Stmt.

Record Timer := { timer_id : nat; deadline : N; callback : Callback }.

Record ConsoleLine := { line_level : Level; line_msg : jsstring; line_arg : option Value }.

(** One call of the adapter and the host objects it touches. *)
Record World := {
  time : N;                               (* milliseconds *)
  promise : PState Value Value;           (* the promise the call returned *)
  settledAt : option N;
  timers : list Timer;
  next_timer : nat;
  rec_onresult : option Callback;         (* this.recognition.onresult *)
  rec_onerror : option Callback;          (* this.recognition.onerror *)
  sessions : nat;                         (* recognition.start() calls *)
  utt_onend : option Callback;            (* utterance.onend *)
  utt_onerror : option Callback;          (* utterance.onerror *)
  spoken : list jsstring;                 (* utterances handed to synthesis.speak *)
  console : list ConsoleLine;
  uncaught : list JsError                 (* errors thrown out of callbacks *)
}.

Definition fresh (t : N) : World :=
  {| time := t; promise := Pending; settledAt := None; timers := [];
     next_timer := 0; rec_onresult := None; rec_onerror := None; sessions := 0;
     utt_onend := None; utt_onerror := None; spoken := []; console := [];
     uncaught := [] |}.

Definition with_promise (f : PState Value Value -> PState Value Value) (w : World) : World :=
  {| time := time w;
     promise := f (promise w);
     settledAt := if settled (promise w) then settledAt w
                  else if settled (f (promise w)) then Some (time w) else None;
     timers := timers w; next_timer := next_timer w;
     rec_onresult := rec_onresult w; rec_onerror := rec_onerror w;
     sessions := sessions w;
     utt_onend := utt_onend w; utt_onerror := utt_onerror w;
     spoken := spoken w; console := console w; uncaught := uncaught w |}.

Definition with_timers (f : list Timer -> list Timer) (w : World) : World :=
  {| time := time w; promise := promise w; settledAt := settledAt w;
     timers := f (timers w); next_timer := next_timer w;
     rec_onresult := rec_onresult w; rec_onerror := rec_onerror w;
     sessions := sessions w;
     utt_onend := utt_onend w; utt_onerror := utt_onerror w;
     spoken := spoken w; console := console w; uncaught := uncaught w |}.

Definition with_time (t : N) (w : World) : World :=
  {| time := t; promise := promise w; settledAt := settledAt w;
     timers := timers w; next_timer := next_timer w;
     rec_onresult := rec_onresult w; rec_onerror := rec_onerror w;
     sessions := sessions w;
     utt_onend := utt_onend w; utt_onerror := utt_onerror w;
     spoken := spoken w; console := console w; uncaught := uncaught w |}.

Definition with_console (l : ConsoleLine) (w : World) : World :=
  {| time := time w; promise := promise w; settledAt := settledAt w;
     timers := timers w; next_timer := next_timer w;
     rec_onresult := rec_onresult w; rec_onerror := rec_onerror w;
     sessions := sessions w;
     utt_onend := utt_onend w; utt_onerror := utt_onerror w;
     spoken := spoken w; console := console w ++ [l]; uncaught := uncaught w |}.

Definition with_uncaught (e : JsError) (w : World) : World :=
  {| time := time w; promise := promise w; settledAt := settledAt w;
     timers := timers w; next_timer := next_timer w;
     rec_onresult := rec_onresult w; rec_onerror := rec_onerror w;
     sessions := sessions w;
     utt_onend := utt_onend w; utt_onerror := utt_onerror w;
     spoken := spoken w; console := console w; uncaught := uncaught w ++ [e] |}.

Definition set_recognition (onresult onerror : Callback) (w : World) : World :=
  {| time := time w; promise := promise w; settledAt := settledAt w;
     timers := timers w; next_timer := next_timer w;
     rec_onresult := Some onresult; rec_onerror := Some onerror;
     sessions := sessions w;
     utt_onend := utt_onend w; utt_onerror := utt_onerror w;
     spoken := spoken w; console := console w; uncaught := uncaught w |}.

Definition recognition_start (w : World) : World :=
  {| time := time w; promise := promise w; settledAt := settledAt w;
     timers := timers w; next_timer := next_timer w;
     rec_onresult := rec_onresult w; rec_onerror := rec_onerror w;
     sessions := S (sessions w);
     utt_onend := utt_onend w; utt_onerror := utt_onerror w;
     spoken := spoken w; console := console w; uncaught := uncaught w |}.

Definition set_onend (cb : Callback) (w : World) : World :=
  {| time := time w; promise := promise w; settledAt := settledAt w;
     timers := timers w; next_timer := next_timer w;
     rec_onresult := rec_onresult w; rec_onerror := rec_onerror w;
     sessions := sessions w;
     utt_onend := Some cb; utt_onerror := utt_onerror w;
     spoken := spoken w; console := console w; uncaught := uncaught w |}.

Definition set_onerror (cb : Callback) (w : World) : World :=
  {| time := time w; promise := promise w; settledAt := settledAt w;
     timers := timers w; next_timer := next_timer w;
     rec_onresult := rec_onresult w; rec_onerror := rec_onerror w;
     sessions := sessions w;
     utt_onend := utt_onend w; utt_onerror := Some cb;
     spoken := spoken w; console := console w; uncaught := uncaught w |}.

Definition synthesis_speak (text : jsstring) (w : World) : World :=
  {| time := time w; promise := promise w; settledAt := settledAt w;
     timers := timers w; next_timer := next_timer w;
     rec_onresult := rec_onresult w; rec_onerror := rec_onerror w;
     sessions := sessions w;
     utt_onend := utt_onend w; utt_onerror := utt_onerror w;
     spoken := spoken w ++ [text]; console := console w; uncaught := uncaught w |}.

(** [setTimeout(cb, delay)]: the new timer's id and the world with it armed. *)
Definition setTimeout (cb : Callback) (delay : N) (w : World) : nat * World :=
  (next_timer w,
   {| time := time w; promise := promise w; settledAt := settledAt w;
      timers := timers w ++ [{| timer_id := next_timer w;
                                deadline := time w + delay; callback := cb |}];
      next_timer := S (next_timer w);
      rec_onresult := rec_onresult w; rec_onerror := rec_onerror w;
      sessions := sessions w;
      utt_onend := utt_onend w; utt_onerror := utt_onerror w;
      spoken := spoken w; console := console w; uncaught := uncaught w |}).

Definition clearTimeout (i : nat) (w : World) : World :=
  with_timers (List.filter (fun tm => negb (Nat.eqb (timer_id tm) i))) w.

(** ** Running callbacks *)

(** The engine's message for a property read on [undefined] (V8's
    wording). *)
Definition undefined_member_message (member : jsstring) : jsstring :=
  lit "Cannot read properties of undefined (reading '" ++ member ++ lit "')".

(** [event.results[0][0].transcript]: with no result, [[0]] is read
    off [undefined]; with a first result that has no alternative,
    [transcript] is. *)
Definition first_transcript (arg : Value) : Completion Value :=
  match arg with
  | VEvent ((t :: _) :: _) _ => Normal (VString t)
  | VEvent ([] :: _) _ =>
      Abrupt (TypeError (undefined_member_message (lit "transcript")))
  | VEvent [] _ => Abrupt (TypeError (undefined_member_message (lit "0")))
  | VString _ => Abrupt (TypeError (undefined_member_message (lit "0")))
  | VUndefined => Abrupt (TypeError (undefined_member_message (lit "results")))
  end.

Definition event_error (arg : Value) : Value :=
  match arg with
  | VEvent _ (Some code) => VString code
  | _ => VUndefined
  end.

Definition exec_stmt (arg : Value) (s : Stmt) (w : World) : Completion World :=
  match s with
  | SLog m => Normal (with_console {| line_level := LvlLog; line_msg := m; line_arg := None |} w)
  | SLogError m =>
      Normal (with_console {| line_level := LvlError; line_msg := m; line_arg := Some arg |} w)
  | SResolve => Normal (with_promise (resolve VUndefined) w)
  | SReject => Normal (with_promise (reject arg) w)
  | SClearTimeout i => Normal (clearTimeout i w)
  | SResolveTranscript =>
      match first_transcript arg with
      | Normal v => Normal (with_promise (resolve v) w)
      | Abrupt e => Abrupt e
      end
  | SRejectEventError => Normal (with_promise (reject (event_error arg)) w)
  end.

(** A callback runs its statements in order; an error thrown inside
    it ends the callback and is reported by the host. *)
Fixpoint run_callback (arg : Value) (cb : Callback) (w : World) : World :=
  match cb with
  | [] => w
  | s :: rest =>
      match exec_stmt arg s w with
      | Normal w' => run_callback arg rest w'
      | Abrupt e => with_uncaught e w
      end
  end.

(** What the speech engines may fire. *)
Inductive HostEvent : Type :=
| RecognitionResult (results : list (list jsstring))
| RecognitionError (code : jsstring)
| UtteranceEnd
| UtteranceError (code : jsstring).

Definition event_slot (ev : HostEvent) (w : World) : option Callback :=
  match ev with
  | RecognitionResult _ => rec_onresult w
  | RecognitionError _ => rec_onerror w
  | UtteranceEnd => utt_onend w
  | UtteranceError _ => utt_onerror w
  end.

Definition event_object (ev : HostEvent) : Value :=
  match ev with
  | RecognitionResult r => VEvent r None
  | RecognitionError c => VEvent [] (Some c)
  | UtteranceEnd => VEvent [] None
  | UtteranceError c => VEvent [] (Some c)
  end.

Definition dispatch (ev : HostEvent) (w : World) : World :=
  match event_slot ev w with
  | Some cb => run_callback (event_object ev) cb w
  | None => w
  end.

(** ** Timers *)

(** The armed timer that is due first (the older one on a tie). *)
Fixpoint earliest (l : list Timer) : option Timer :=
  match l with
  | [] => None
  | tm :: rest =>
      match earliest rest with
      | Some tm' => if deadline tm' <? deadline tm then Some tm' else Some tm
      | None => Some tm
      end
  end.

Definition fire (tm : Timer) (w : World) : World :=
  run_callback VUndefined (callback tm)
    (with_time (N.max (time w) (deadline tm)) (clearTimeout (timer_id tm) w)).

(** Fire the timers due by [t], earliest first. *)
Fixpoint fire_due (fuel : nat) (t : N) (w : World) : World :=
  match fuel with
  | O => w
  | S n =>
      match earliest (timers w) with
      | Some tm => if deadline tm <=? t then fire_due n t (fire tm w) else w
      | None => w
      end
  end.

(** Let the clock reach [t]. *)
Definition advance (t : N) (w : World) : World :=
  let w' := fire_due (length (timers w)) t w in
  with_time (N.max (time w') t) w'.

(** Run the loop up to the instant [T]. The engine's events come
    with the delay since the previous one. *)
Fixpoint run_until (T : N) (evs : list (N * HostEvent)) (w : World) : World :=
  match evs with
  | [] => advance T w
  | (d, ev) :: rest =>
      let t := time w + d in
      if T <? t then advance T w
      else run_until T rest (dispatch ev (advance t w))
  end.

(** ** The adapter *)

Inductive SpeechRecognition : Type := RecognitionObject.
Inductive SpeechSynthesis : Type := SynthesisObject.

(** The [voiceService] object: its two capability fields, [None] for
    [null] or [undefined]. *)
Record VoiceService := {
  recognition : option SpeechRecognition;
  synthesis : option SpeechSynthesis
}.

Definition not_supported_recognition : jsstring := lit "Speech recognition not supported".
Definition not_supported_synthesis : jsstring := lit "Speech synthesis not supported".

(** The world when [startListening()] has returned its promise, for a
    call made at time [t]. *)
Definition startListening (this : VoiceService) (t : N) : World :=
  let w := fresh t in
  match recognition this with
  | None => with_promise (reject (VString not_supported_recognition)) w
  | Some _ =>
      let w := set_recognition [SResolveTranscript] [SRejectEventError] w in
      recognition_start w
  end.

Definition timeout_ms : N := 10000.

(** The world when [speak(text)] has returned its promise. *)
Definition speak (this : VoiceService) (text : jsstring) (t : N) : World :=
  let w := fresh t in
  match synthesis this with
  | None => with_promise (reject (VString not_supported_synthesis)) w
  | Some _ =>
      let w := set_onend [SLog (lit "Speech finished"); SResolve] w in
      let w := set_onerror [SLogError (lit "Speech error:"); SReject] w in
      let '(timeout, w) :=
        setTimeout [SLog (lit "Speech timeout fallback"); SResolve] timeout_ms w in
      let w := set_onend [SClearTimeout timeout; SLog (lit "Speech finished"); SResolve] w in
      synthesis_speak text w
  end.

End Voice.

(* ===================================================================== *)
(** * Module initialisation                                               *)
(* ===================================================================== *)

#[export] Instance completion_ret : MRet Completion := fun A a => Normal a.
#[export] Instance completion_bind : MBind Completion :=
  fun A B f c => match c with Normal a => f a | Abrupt e => Abrupt e end.

Module Init.
Import Voice.

Inductive Constructor : Type := SpeechRecognitionConstructor.

(** [new C()] *)
Definition construct (c : Constructor) : SpeechRecognition := RecognitionObject.

(** The two properties of [window] the module reads; [None] is [undefined]. *)
Record Window := {
  webkitSpeechRecognition : option Constructor;
  speechSynthesis : option SpeechSynthesis
}.

(** The host at load time: [import.meta.env] and the global [window]
    ([None] when [typeof window === 'undefined']). *)
Record Host := {
  env : gmap string jsstring;
  window : option Window
}.

Record AiService := {
  genAI : GoogleGenerativeAI;
  voiceService : VoiceService
}.

Definition not_a_constructor : jsstring :=
  lit "window.webkitSpeechRecognition is not a constructor".

(** [new (window as any).webkitSpeechRecognition()] *)
Definition new_recognition (win : Window) : Completion SpeechRecognition :=
  match webkitSpeechRecognition win with
  | Some c => Normal (construct c)
  | None => Abrupt (TypeError not_a_constructor)
  end.

(** The top-level statements of [aiService.ts], in order: what they
    log and the module's bindings, or the error that aborts the load. *)
Definition aiService_init (h : Host) : list LogEntry * Completion AiService :=
  match (env h !! "VITE_GEMINI_API_KEY"%string : option jsstring) with
  | Some ((_ :: _) as apiKey) =>
      ([console_log [LStr (lit "API Key loaded:"); LStr apiKey]],
       let genAI := {| client_apiKey := apiKey |} in
       rec ← match window h with
             | Some win => r ← new_recognition win; mret (Some r)
             | None => mret None
             end;
       let syn := match window h with
                  | Some win => speechSynthesis win
                  | None => None
                  end in
       mret {| genAI := genAI;
               voiceService := {| recognition := rec; synthesis := syn |} |})
  | _ =>
      ([console_error [LStr (lit "Gemini API key is not set in environment variables")]],
       Abrupt (Error (lit "Gemini API key is required")))
  end.

(** ** The remote-store configuration module *)

Record FirebaseConfig := {
  apiKey : option jsstring;
  authDomain : option jsstring;
  projectId : option jsstring;
  storageBucket : option jsstring;
  messagingSenderId : option jsstring;
  appId : option jsstring
}.

Definition firebaseConfig (h : Host) : FirebaseConfig :=
  {| apiKey := env h !! "VITE_FIREBASE_API_KEY"%string;
     authDomain := env h !! "VITE_FIREBASE_AUTH_DOMAIN"%string;
     projectId := env h !! "VITE_FIREBASE_PROJECT_ID"%string;
     storageBucket := env h !! "VITE_FIREBASE_STORAGE_BUCKET"%string;
     messagingSenderId := env h !! "VITE_FIREBASE_MESSAGING_SENDER_ID"%string;
     appId := env h !! "VITE_FIREBASE_APP_ID"%string |}.

Section Firebase.
(** The remote-service client, as imported from the Firebase SDK. *)
Context {App Firestore Storage : Type}.
Variable initializeApp : FirebaseConfig -> Completion App.
Variable getFirestore : App -> Completion Firestore.
Variable getStorage : App -> Completion Storage.

Record FirebaseModule := {
  app : App;
  db : Firestore;
  storage : Storage;
  usersCollection : jsstring;
  consultationsCollection : jsstring;
  uploadsCollection : jsstring
}.

Definition firebase_init (h : Host) : Completion FirebaseModule :=
  app ← initializeApp (firebaseConfig h);
  db ← getFirestore app;
  storage ← getStorage app;
  mret {| app := app; db := db; storage := storage;
          usersCollection := lit "users";
          consultationsCollection := lit "consultations";
          uploadsCollection := lit "uploads" |}.
End Firebase.

End Init.

(* ===================================================================== *)
(** * Derived definitions used by the statements                          *)
(* ===================================================================== *)

Import medicalChatService medicalAnalysisService.

Definition chat_request (genAI : GoogleGenerativeAI) (message : jsstring) : Request :=
  {| req_model := getGenerativeModel genAI (lit "gemini-1.5-flash") (lit "v1");
     req_content := Prompt (medicalChatService.prompt message) |}.

(** The settlement of [sendMessage] in closed form; [t] is the clock of
    the task that builds the message. *)
Definition sendMessage_outcome (sv : Services) (genAI : GoogleGenerativeAI)
    (message : jsstring) (t : N) : Outcome Message :=
  match generateContent sv (chat_request genAI message) with
  | Abrupt e => Rejected (Error (chat_failure_prefix ++ err_message e))
  | Normal result =>
      match text (response result) with
      | Abrupt e => Rejected (Error (chat_failure_prefix ++ err_message e))
      | Normal [] =>
          Rejected (Error (chat_failure_prefix
                             ++ lit "Empty response from AI"))
      | Normal txt =>
          Resolved {| id := toString t; role := assistant;
                      content := trim txt; timestamp := t |}
      end
  end.

(** A service that answers every request with the text [t]. *)
Definition answering (t : jsstring) : Services :=
  {| generateContent := fun _ => Normal {| response := {| text := Normal t |} |};
     readAsDataURL := fun _ => Failed |}.

Definition demo_client : GoogleGenerativeAI := {| client_apiKey := lit "key" |}.


Definition analysis_request (genAI : GoogleGenerativeAI) (file : File)
    (payload : option jsstring) : Request :=
  {| req_model := getGenerativeModel genAI (lit "gemini-1.5-flash") (lit "v1");
     req_content :=
       Parts [PText medicalAnalysisService.prompt;
              PInline {| data := payload; mimeType := file_type file |}] |}.

(** The settlement of [analyzeImage] in closed form. *)
Definition analyzeImage_outcome (sv : Services) (genAI : GoogleGenerativeAI)
    (file : File) : Outcome jsstring :=
  match readAsDataURL sv file with
  | Failed =>
      Rejected (Error (analysis_failure_prefix
                         ++ null_member_message (lit "split")))
  | Loaded d =>
      match generateContent sv
              (analysis_request genAI file (split comma d !! 1%nat)) with
      | Abrupt e => Rejected (Error (analysis_failure_prefix ++ err_message e))
      | Normal result =>
          match text (response result) with
          | Abrupt e => Rejected (Error (analysis_failure_prefix ++ err_message e))
          | Normal [] =>
              Rejected (Error (analysis_failure_prefix
                                 ++ lit "Empty response from AI"))
          | Normal txt => Resolved txt
          end
      end
  end.

(** A host whose reader ends with [o] and whose service answers [t]. *)
Definition reading (o : ReadOutcome) (t : jsstring) : Services :=
  {| generateContent := fun _ => Normal {| response := {| text := Normal t |} |};
     readAsDataURL := fun _ => o |}.

(** A host whose service call fails with [e]. *)
Definition failing (o : ReadOutcome) (e : JsError) : Services :=
  {| generateContent := fun _ => Abrupt e; readAsDataURL := fun _ => o |}.

Definition demo_file : File :=
  {| file_name := lit "scan.png"; file_type := lit "image/png"; file_bytes := [] |}.

(** A file whose type field contains a comma. *)
Definition odd_file : File :=
  {| file_name := lit "scan.bin"; file_type := lit "a,b"; file_bytes := [] |}.

Definition side_eqb (a b : Side) : bool :=
  match a, b with L, L | R, R => true | _, _ => false end.

(** The clock readings of one side's tasks in a schedule begun at [t0]. *)
Fixpoint clocks_of (side : Side) (t0 : N) (s : Schedule) : list N :=
  match s with
  | [] => []
  | (sd, d) :: rest =>
      if side_eqb sd side then (t0 + d) :: clocks_of side (t0 + d) rest
      else clocks_of side (t0 + d) rest
  end.

(** A service that answers a prompt with the prompt itself. *)
Definition echoing : Services :=
  {| generateContent := fun req =>
       match req_content req with
       | Prompt p => Normal {| response := {| text := Normal p |} |}
       | Parts _ => Abrupt (Error (lit "unsupported"))
       end;
     readAsDataURL := fun _ => Failed |}.


(** ** Predicates on voice worlds *)

Module VoiceFacts.
Import Voice.

(** A statement that cannot throw (all but the transcript read). *)
Definition quiet_stmt (s : Stmt) : bool :=
  match s with SResolveTranscript => false | _ => true end.

Definition quiet_cb (cb : Callback) : bool := forallb quiet_stmt cb.

Definition quiet_slot (o : option Callback) : bool :=
  match o with Some cb => quiet_cb cb | None => true end.

(** Every callback installed in the world is quiet. *)
Definition quiet_world (w : World) : Prop :=
  quiet_slot (rec_onresult w) = true
  /\ quiet_slot (rec_onerror w) = true
  /\ quiet_slot (utt_onend w) = true
  /\ quiet_slot (utt_onerror w) = true
  /\ Forall (fun tm => quiet_cb (callback tm) = true) (timers w).

(** The promise of [w'] is as [w] left it. *)
Definition same_settlement (w w' : World) : Prop :=
  promise w' = promise w /\ settledAt w' = settledAt w.

(** [w'] has no callback that [w] did not have, and no new report
    of an error thrown by a callback. *)
Definition calm (w w' : World) : Prop :=
  rec_onresult w' = rec_onresult w
  /\ rec_onerror w' = rec_onerror w
  /\ utt_onend w' = utt_onend w
  /\ utt_onerror w' = utt_onerror w
  /\ incl (timers w') (timers w)
  /\ uncaught w' = uncaught w.

(** Both capabilities present. *)
Definition capable : VoiceService :=
  {| recognition := Some RecognitionObject; synthesis := Some SynthesisObject |}.

(** No capability: the service as built where [window] is undefined. *)
Definition incapable : VoiceService :=
  {| recognition := None; synthesis := None |}.

End VoiceFacts.

(** ** The states of a [speak] call *)

Module SpeakFacts.
Import Voice.

Definition fallback_timer (t : N) : Timer :=
  {| timer_id := 0; deadline := t + timeout_ms;
     callback := [SLog (lit "Speech timeout fallback"); SResolve] |}.

(** A call made at [t] that has not settled: the fallback timer is
    armed and the utterance carries the two callbacks. *)
Definition armed (t : N) (w : World) : Prop :=
  promise w = Pending
  /\ settledAt w = None
  /\ timers w = [fallback_timer t]
  /\ t <= time w <= t + timeout_ms
  /\ rec_onresult w = None
  /\ rec_onerror w = None
  /\ utt_onend w = Some [SClearTimeout 0; SLog (lit "Speech finished"); SResolve]
  /\ utt_onerror w = Some [SLogError (lit "Speech error:"); SReject].

(** A call made at [t] that settled within the timeout. *)
Definition settled_by (t : N) (w : World) : Prop :=
  settled (promise w) = true
  /\ exists ts, settledAt w = Some ts /\ t <= ts <= t + timeout_ms.

End SpeakFacts.

(** After the fallback timer: the end event at last, then an error. *)
Definition late_end_and_error : list (N * Voice.HostEvent) :=
  [(2000, Voice.UtteranceEnd); (500, Voice.UtteranceError (lit "synthesis-failed"))].

(** ** Hosts used in the statements *)

Module Hosts.
Import Voice Init.

(** Nothing configured and no [window] (a server-side load). *)
Definition bare_host : Host := {| env := ∅; window := None |}.

(** Only the generative-service key is set; no [window]. *)
Definition keyed_host : Host :=
  {| env := {[ "VITE_GEMINI_API_KEY"%string := lit "k-123" ]}; window := None |}.

(** A browser with the recognition constructor but no speech synthesis. *)
Definition mute_browser : Host :=
  {| env := {[ "VITE_GEMINI_API_KEY"%string := lit "k-123" ]};
     window := Some {| webkitSpeechRecognition := Some SpeechRecognitionConstructor;
                       speechSynthesis := None |} |}.

(** A browser without the recognition constructor. *)
Definition deaf_browser : Host :=
  {| env := {[ "VITE_GEMINI_API_KEY"%string := lit "k-123" ]};
     window := Some {| webkitSpeechRecognition := None;
                       speechSynthesis := Some SynthesisObject |} |}.

(** A remote-store client that accepts any configuration. *)
Definition lenient_initializeApp (c : FirebaseConfig) : Completion FirebaseConfig := Normal c.
Definition lenient_getFirestore (a : FirebaseConfig) : Completion unit := Normal tt.
Definition lenient_getStorage (a : FirebaseConfig) : Completion unit := Normal tt.

End Hosts.

(** ** Predicates used by the further properties *)

(** Every code unit of [s] is one that [trim] strips. *)
Definition all_white_space (s : jsstring) : bool := forallb is_white_space s.

(** The files whose read a trace starts. *)
Definition reads (evs : list Event) : list File :=
  omap (fun e => match e with EvRead f => Some f | _ => None end) evs.

(** Two calls taking turns, four tasks each. *)
Definition interleaved : Schedule :=
  [(L, 0); (R, 1); (L, 5); (R, 0); (R, 2); (L, 7); (L, 0); (R, 3)].

(** ** More states of the voice calls *)

Module ListenFacts.
Import Voice.

(** A [startListening] call that has not settled: one session started,
    the two recognition callbacks installed, no timer anywhere. *)
Definition listening (w : World) : Prop :=
  promise w = Pending
  /\ settledAt w = None
  /\ timers w = []
  /\ rec_onresult w = Some [SResolveTranscript]
  /\ rec_onerror w = Some [SRejectEventError]
  /\ utt_onend w = None
  /\ utt_onerror w = None
  /\ sessions w = 1%nat
  /\ uncaught w = [].

Definition is_recognition_event (ev : HostEvent) : bool :=
  match ev with
  | RecognitionResult _ | RecognitionError _ => true
  | UtteranceEnd | UtteranceError _ => false
  end.

(** No event of the list comes from the recognizer. *)
Definition recognizer_silent (evs : list (N * HostEvent)) : bool :=
  forallb (fun e => negb (is_recognition_event (snd e))) evs.

(** A result list with no result, or whose first result has no
    alternative. *)
Definition no_transcript (results : list (list jsstring)) : bool :=
  match results with
  | (_ :: _) :: _ => false
  | _ => true
  end.

(** The devices of [w'] are as [w] left them: same utterances queued,
    same number of recognition sessions started. *)
Definition same_devices (w w' : World) : Prop :=
  spoken w' = spoken w /\ sessions w' = sessions w.

(** No console line of the world is the fallback timer's. *)
Definition never_fell_back (w : World) : Prop :=
  Forall (fun l => line_msg l <> lit "Speech timeout fallback") (console w).

(** A [speak] call whose timer is gone and whose console shows no
    fallback: the state after a natural end. *)
Definition disarmed (w : World) : Prop :=
  timers w = []
  /\ rec_onresult w = None
  /\ rec_onerror w = None
  /\ utt_onend w = Some [SClearTimeout 0; SLog (lit "Speech finished"); SResolve]
  /\ utt_onerror w = Some [SLogError (lit "Speech error:"); SReject]
  /\ never_fell_back w.

End ListenFacts.

(** ** Hosts with a store configuration *)

Module Stores.
Import Voice Init.

(** The environment variables the store configuration reads. *)
Definition store_variables : list string :=
  ["VITE_FIREBASE_API_KEY"; "VITE_FIREBASE_AUTH_DOMAIN"; "VITE_FIREBASE_PROJECT_ID";
   "VITE_FIREBASE_STORAGE_BUCKET"; "VITE_FIREBASE_MESSAGING_SENDER_ID";
   "VITE_FIREBASE_APP_ID"]%string.

(** A host that sets the project id and the bucket only. *)
Definition stored_host : Host :=
  {| env := {[ "VITE_FIREBASE_PROJECT_ID"%string := lit "medical-ai";
               "VITE_FIREBASE_STORAGE_BUCKET"%string := lit "medical-ai.appspot.com" ]};
     window := None |}.

(** The same store variables, with the generative-service key and a
    browser window besides. *)
Definition stored_browser : Host :=
  {| env := <[ "VITE_GEMINI_API_KEY"%string := lit "k-123" ]> (env stored_host);
     window := Some {| webkitSpeechRecognition := Some SpeechRecognitionConstructor;
                       speechSynthesis := Some SynthesisObject |} |}.

End Stores.

(* ===================================================================== *)
(** * Several [startListening] calls on the one recognition object        *)
(* ===================================================================== *)

(** [voiceService.recognition] is created once, at load, and every
    [startListening] call assigns its callbacks to that same object.
    The callbacks close over the [resolve] and [reject] of the call
    that installed them: a slot holds the number of that call. *)
Module SharedRecognition.
Import Voice.

(** A call's promise is rejected with a value passed to [reject], or
    with the error thrown out of the executor. *)
Record Shared := {
  calls : list (PState Value (Value + JsError));
                                   (* the promises returned so far, by call *)
  onresult_of : option nat;        (* whose [resolve] recognition.onresult holds *)
  onerror_of : option nat;         (* whose [reject] recognition.onerror holds *)
  starts : nat                     (* recognition.start() calls made *)
}.

(** The service after load, before any call. *)
Definition idle : Shared :=
  {| calls := []; onresult_of := None; onerror_of := None; starts := 0 |}.

(** One more call of [startListening]. [start] is what
    [recognition.start()] does this time; if it throws, the executor
    throws, which rejects the new promise. *)
Definition startListening (this : VoiceService) (start : Completion unit) (s : Shared)
  : Shared :=
  let n := length (calls s) in
  match recognition this with
  | None =>
      {| calls := calls s ++ [RejectedWith (inl (VString not_supported_recognition))];
         onresult_of := onresult_of s; onerror_of := onerror_of s;
         starts := starts s |}
  | Some _ =>
      let p := match start with
               | Normal _ => Pending
               | Abrupt e => RejectedWith (inr e)
               end in
      {| calls := calls s ++ [p];
         onresult_of := Some n; onerror_of := Some n;
         starts := S (starts s) |}
  end.

Definition settle_call (n : nat)
    (f : PState Value (Value + JsError) -> PState Value (Value + JsError))
    (s : Shared) : Shared :=
  {| calls := alter f n (calls s);
     onresult_of := onresult_of s; onerror_of := onerror_of s;
     starts := starts s |}.

(** The recognizer fires an event: the installed callback runs. *)
Definition deliver (ev : HostEvent) (s : Shared) : Shared :=
  match ev with
  | RecognitionResult r =>
      match onresult_of s with
      | Some n =>
          match first_transcript (VEvent r None) with
          | Normal v => settle_call n (resolve v) s
          | Abrupt _ => s
          end
      | None => s
      end
  | RecognitionError c =>
      match onerror_of s with
      | Some n => settle_call n (reject (inl (event_error (VEvent [] (Some c))))) s
      | None => s
      end
  | UtteranceEnd | UtteranceError _ => s
  end.

(** What may happen to the service: a further call, or an event. *)
Inductive Step : Type :=
| Call (start : Completion unit)
| Fires (ev : HostEvent).

Definition step (this : VoiceService) (s : Shared) (st : Step) : Shared :=
  match st with
  | Call start => startListening this start s
  | Fires ev => deliver ev s
  end.

Definition run (this : VoiceService) (sts : list Step) (s : Shared) : Shared :=
  fold_left (step this) sts s.

(** The call numbered [n] is pending and no slot holds its callbacks. *)
Definition orphaned (n : nat) (s : Shared) : Prop :=
  calls s !! n = Some Pending
  /\ onresult_of s <> Some n
  /\ onerror_of s <> Some n.

End SharedRecognition.

(** ** Schedules with a ticking clock *)

(** Both answers arrive, and both calls read [Date.now()] within the
    same millisecond; the left call's [new Date()] comes two
    milliseconds after its [Date.now()]. *)
Definition same_millisecond : list Ticking.Task :=
  [ {| Ticking.task_side := L; Ticking.task_delay := 0; Ticking.task_ticks := [] |};
    {| Ticking.task_side := R; Ticking.task_delay := 0; Ticking.task_ticks := [] |};
    {| Ticking.task_side := L; Ticking.task_delay := 40; Ticking.task_ticks := [] |};
    {| Ticking.task_side := R; Ticking.task_delay := 0; Ticking.task_ticks := [] |};
    {| Ticking.task_side := R; Ticking.task_delay := 0; Ticking.task_ticks := [0] |};
    {| Ticking.task_side := L; Ticking.task_delay := 0; Ticking.task_ticks := [2] |} ].

(** The two calls read [Date.now()] five milliseconds apart. *)
Definition five_apart : list Ticking.Task :=
  [ {| Ticking.task_side := L; Ticking.task_delay := 0; Ticking.task_ticks := [] |};
    {| Ticking.task_side := R; Ticking.task_delay := 0; Ticking.task_ticks := [] |};
    {| Ticking.task_side := L; Ticking.task_delay := 40; Ticking.task_ticks := [] |};
    {| Ticking.task_side := R; Ticking.task_delay := 3; Ticking.task_ticks := [] |};
    {| Ticking.task_side := L; Ticking.task_delay := 0; Ticking.task_ticks := [1] |};
    {| Ticking.task_side := R; Ticking.task_delay := 4; Ticking.task_ticks := [1] |} ].

(** What [recognition.start()] throws while a session is active. *)
Definition already_started : JsError :=
  mkError (lit "InvalidStateError") (lit "recognition has already started").

(* ===================================================================== *)
(** * Properties                                                          *)
(* ===================================================================== *)

#[local] Arguments lit : simpl never.

(** ** Strings *)

Example trim_example : trim (lit "  ok ") = lit "ok".
Proof. reflexivity. Qed.

Example split_example :
  split 44 (lit "data:image/png;base64,QUJD") = [lit "data:image/png;base64"; lit "QUJD"].
Proof. reflexivity. Qed.

Example toString_example : toString 1700000000123 = lit "1700000000123".
Proof. reflexivity. Qed.

Lemma lit_inj (s1 s2 : string) : lit s1 = lit s2 -> s1 = s2.
Proof.
  unfold lit. intros H.
  rewrite <- (string_of_list_ascii_of_string s1), <- (string_of_list_ascii_of_string s2).
  f_equal.
  revert H. generalize (list_ascii_of_string s1) (list_ascii_of_string s2).
  induction l as [|a l IH]; intros [|b l'] H; simpl in H; try discriminate; [reflexivity|].
  injection H as Hab Hl. f_equal; [|apply IH, Hl].
  rewrite <- (ascii_N_embedding a), <- (ascii_N_embedding b). congruence.
Qed.

Lemma toString_inj (a b : N) : toString a = toString b -> a = b.
Proof.
  unfold toString. intros H. apply lit_inj in H.
  assert (Hu : N.to_uint a = N.to_uint b).
  { pose proof (NilEmpty.usu (N.to_uint a)) as Ha.
    pose proof (NilEmpty.usu (N.to_uint b)) as Hb.
    rewrite H in Ha. congruence. }
  rewrite <- (Unsigned.of_to a), <- (Unsigned.of_to b). congruence.
Qed.

Lemma split_no_sep (sep : N) (s : jsstring) :
  ~ In sep s -> split sep s = [s].
Proof.
  induction s as [|c r IH]; intros Hn; [reflexivity|].
  simpl. destruct (N.eqb_spec c sep) as [->|Hne].
  - exfalso. apply Hn. left. reflexivity.
  - rewrite IH; [reflexivity|]. intros Hin. apply Hn. right. exact Hin.
Qed.

Lemma split_first_sep (sep : N) (pre post : jsstring) :
  ~ In sep pre -> split sep (pre ++ sep :: post) = pre :: split sep post.
Proof.
  induction pre as [|c r IH]; intros Hn; simpl.
  - rewrite N.eqb_refl. reflexivity.
  - destruct (N.eqb_spec c sep) as [->|Hne].
    + exfalso. apply Hn. left. reflexivity.
    + rewrite IH; [reflexivity|]. intros Hin. apply Hn. right. exact Hin.
Qed.

(** ** The loop *)

Lemma finished_stays {A} (sv : Services) (clocks : list N) (o : Outcome A) :
  run_tasks sv clocks (Finished o) = ([], Finished o).
Proof.
  induction clocks as [|t rest IH]; [reflexivity|].
  cbn [run_tasks resume]. rewrite IH. reflexivity.
Qed.

(** ** Chat adapter *)

(** A call is entered, resumed with the service's answer, and resumed
    once more after [await result.response]: three tasks settle it. *)
Lemma sendMessage_three_tasks sv genAI message t1 t2 t3 rest :
  snd (call sv (t1 :: t2 :: t3 :: rest) (sendMessage genAI message))
  = Finished (sendMessage_outcome sv genAI message t3).
Proof.
  unfold call, sendMessage_outcome, chat_request. cbn.
  destruct (generateContent sv _) as [[[[txt|e]]]|e]; cbn;
    [destruct txt as [|c txt']; cbn| |]; rewrite finished_stays; reflexivity.
Qed.

(** What does hold of every settlement of [sendMessage]: a resolved
    message has role [assistant] and carries the trimmed text of a
    non-empty response; a rejection carries the fixed prefix. *)
Lemma sendMessage_settles sv genAI message t1 t2 t3 rest :
  (exists txt, txt <> [] /\
     snd (call sv (t1 :: t2 :: t3 :: rest) (sendMessage genAI message))
     = Finished (Resolved {| id := toString t3; role := assistant;
                             content := trim txt; timestamp := t3 |}))
  \/ (exists m,
     snd (call sv (t1 :: t2 :: t3 :: rest) (sendMessage genAI message))
     = Finished (Rejected (Error (chat_failure_prefix ++ m)))).
Proof.
  rewrite sendMessage_three_tasks. unfold sendMessage_outcome.
  destruct (generateContent sv _) as [[[[txt|e]]]|e]; [destruct txt as [|c r]| |].
  - right. eexists. reflexivity.
  - left. exists (c :: r). split; [discriminate|reflexivity].
  - right. eexists. reflexivity.
  - right. eexists. reflexivity.
Qed.

(** C1: for a non-empty input, [sendMessage] resolves with a message of
    non-empty trimmed content or rejects. The code checks the response
    for emptiness before it trims it: when the service answers the
    non-empty message "hi" with a single space, the call resolves with
    an [assistant] message whose content is the empty string. *)
Theorem sendMessage_blank_response_resolves_empty :
  lit "hi" <> [] /\
  snd (call (answering (lit " ")) [1000; 1200; 1200]
         (sendMessage demo_client (lit "hi")))
  = Finished (Resolved {| id := lit "1200"; role := assistant;
                          content := []; timestamp := 1200 |}).
Proof. split; [discriminate|reflexivity]. Qed.

(** ** Image analysis adapter *)

(** The call is entered, resumed with the read, resumed with the
    service's answer and once more after [await result.response]. *)
Lemma analyzeImage_four_tasks sv genAI file t1 t2 t3 t4 rest :
  snd (call sv (t1 :: t2 :: t3 :: t4 :: rest) (analyzeImage genAI file))
  = Finished (analyzeImage_outcome sv genAI file).
Proof.
  unfold call, analyzeImage_outcome, analysis_request. cbn.
  unfold file_read_promise.
  destruct (readAsDataURL sv file) as [d|]; cbn.
  - destruct (generateContent sv _) as [[[[txt|e]]]|e]; cbn;
      [destruct txt as [|c txt']; cbn| |]; rewrite finished_stays; reflexivity.
  - rewrite finished_stays. reflexivity.
Qed.

Lemma analyzeImage_requests sv genAI file t1 t2 t3 t4 rest :
  requests (fst (call sv (t1 :: t2 :: t3 :: t4 :: rest)
                   (analyzeImage genAI file)))
  = match readAsDataURL sv file with
    | Loaded d => [analysis_request genAI file (split comma d !! 1%nat)]
    | Failed => []
    end.
Proof.
  unfold call, analysis_request. cbn.
  unfold file_read_promise.
  destruct (readAsDataURL sv file) as [d|]; cbn.
  - destruct (generateContent sv _) as [[[[txt|e]]]|e]; cbn;
      [destruct txt as [|c txt']; cbn| |]; rewrite finished_stays; reflexivity.
  - rewrite finished_stays. reflexivity.
Qed.

(** C2: [analyzeImage] resolves with non-empty text or rejects with the
    analysis error (an [Error] whose message starts with the fixed
    prefix); an empty response, a failed read and a failed remote call
    each end in that rejection. It never resolves with empty text. *)
Theorem analyzeImage_nonempty_or_error sv genAI file t1 t2 t3 t4 rest :
  let out := snd (call sv (t1 :: t2 :: t3 :: t4 :: rest)
                       (analyzeImage genAI file)) in
  ((exists txt, txt <> [] /\ out = Finished (Resolved txt))
   \/ (exists m, out = Finished (Rejected (Error (analysis_failure_prefix ++ m)))))
  /\ out <> Finished (Resolved [])
  /\ (readAsDataURL sv file = Failed ->
      exists m, out = Finished (Rejected (Error (analysis_failure_prefix ++ m))))
  /\ (forall d e,
        readAsDataURL sv file = Loaded d ->
        generateContent sv
          (analysis_request genAI file (split comma d !! 1%nat))
          = Abrupt e ->
        out = Finished (Rejected (Error (analysis_failure_prefix ++ err_message e))))
  /\ (forall d result,
        readAsDataURL sv file = Loaded d ->
        generateContent sv
          (analysis_request genAI file (split comma d !! 1%nat))
          = Normal result ->
        text (response result) = Normal [] ->
        out = Finished (Rejected (Error (analysis_failure_prefix
                                           ++ lit "Empty response from AI")))).
Proof.
  intros out. subst out. rewrite analyzeImage_four_tasks.
  unfold analyzeImage_outcome.
  repeat split.
  - destruct (readAsDataURL sv file) as [d|]; [|right; eexists; reflexivity].
    destruct (generateContent sv _) as [[[[[|c r]|e]]]|e];
      try (right; eexists; reflexivity).
    left. exists (c :: r). split; [discriminate|reflexivity].
  - destruct (readAsDataURL sv file) as [d|]; [|discriminate].
    destruct (generateContent sv _) as [[[[[|c r]|e]]]|e]; discriminate.
  - intros ->. eexists. reflexivity.
  - intros d e -> ->. reflexivity.
  - intros d [[tx]] -> -> Ht. simpl in Ht. rewrite Ht. reflexivity.
Qed.

Lemma analyzeImage_nonempty_or_error_witness :
  (exists m,
     snd (call (reading Failed (lit "ok")) [1; 2; 3; 4]
            (analyzeImage demo_client demo_file))
     = Finished (Rejected (Error (analysis_failure_prefix ++ m))))
  /\ snd (call (failing (Loaded (lit "data:image/png;base64,QUJD")) (Error (lit "503")))
            [1; 2; 3; 4] (analyzeImage demo_client demo_file))
    = Finished (Rejected (Error (analysis_failure_prefix ++ lit "503")))
  /\ snd (call (reading (Loaded (lit "data:image/png;base64,QUJD")) [])
            [1; 2; 3; 4] (analyzeImage demo_client demo_file))
    = Finished (Rejected (Error (analysis_failure_prefix
                                   ++ lit "Empty response from AI"))).
Proof.
  split; [|split].
  - destruct (analyzeImage_nonempty_or_error (reading Failed (lit "ok"))
                demo_client demo_file 1 2 3 4 []) as (_ & _ & H & _).
    exact (H eq_refl).
  - destruct (analyzeImage_nonempty_or_error
                (failing (Loaded (lit "data:image/png;base64,QUJD")) (Error (lit "503")))
                demo_client demo_file 1 2 3 4 []) as (_ & _ & _ & H & _).
    exact (H _ _ eq_refl eq_refl).
  - destruct (analyzeImage_nonempty_or_error
                (reading (Loaded (lit "data:image/png;base64,QUJD")) [])
                demo_client demo_file 1 2 3 4 []) as (_ & _ & _ & _ & H).
    exact (H _ _ eq_refl eq_refl eq_refl).
Defined.

(** With a failed read the call ends in its second task: entered, then
    resumed with [null], whose [split] throws into the [catch]. *)
Lemma analyzeImage_failed_read sv genAI file t1 t2 rest :
  readAsDataURL sv file = Failed ->
  call sv (t1 :: t2 :: rest) (analyzeImage genAI file)
  = ([EvConsole (console_log [LStr (lit "Starting image analysis for:");
                              LStr (file_name file)]);
      EvRead file;
      EvConsole (console_error
                   [LStr (lit "Image analysis error:");
                    LErrorInfo (lit "TypeError")
                               (null_member_message (lit "split"))])],
     Finished (Rejected (Error (analysis_failure_prefix
                                  ++ null_member_message (lit "split"))))).
Proof.
  intros Hread. unfold call. cbn. unfold file_read_promise. rewrite Hread. cbn.
  rewrite finished_stays. reflexivity.
Qed.

(** C7, as stated for every file, fails: after a failed read nothing
    is submitted. *)
Lemma analyzeImage_submission_counterexample :
  readAsDataURL (reading Failed (lit "ok")) demo_file = Failed
  /\ requests (fst (call (reading Failed (lit "ok")) [1; 2; 3; 4]
                      (analyzeImage demo_client demo_file))) = [].
Proof.
  split; [reflexivity|]. rewrite analyzeImage_requests. reflexivity.
Qed.

(** C7 (amended): when the read yields a data URL with a single comma
    (the prefix, the comma, the payload), [analyzeImage] submits
    exactly one request, the pair of the fixed prompt and an inline
    payload whose data is all that follows the comma and whose MIME
    type is the file's type field. When the read fails nothing is
    submitted. *)
Theorem analyzeImage_submits_prompt_and_payload sv genAI file t1 t2 t3 t4 rest :
  let sent := requests (fst (call sv (t1 :: t2 :: t3 :: t4 :: rest)
                                  (analyzeImage genAI file))) in
  (forall pre payload,
     readAsDataURL sv file = Loaded (pre ++ comma :: payload) ->
     ~ In comma pre -> ~ In comma payload ->
     sent = [{| req_model := getGenerativeModel genAI (lit "gemini-1.5-flash") (lit "v1");
                req_content :=
                  Parts [PText medicalAnalysisService.prompt;
                         PInline {| data := Some payload;
                                    mimeType := file_type file |}] |}])
  /\ (readAsDataURL sv file = Failed -> sent = []).
Proof.
  intros sent. subst sent. rewrite analyzeImage_requests.
  split.
  - intros pre payload -> Hpre Hpay.
    rewrite (split_first_sep _ _ _ Hpre), (split_no_sep _ _ Hpay). reflexivity.
  - intros ->. reflexivity.
Qed.

Lemma analyzeImage_submits_prompt_and_payload_witness :
  requests (fst (call (reading (Loaded (lit "data:image/png;base64,QUJD")) (lit "ok"))
                   [1; 2; 3; 4] (analyzeImage demo_client demo_file)))
  = [analysis_request demo_client demo_file (Some (lit "QUJD"))].
Proof.
  destruct (analyzeImage_submits_prompt_and_payload
              (reading (Loaded (lit "data:image/png;base64,QUJD")) (lit "ok"))
              demo_client demo_file 1 2 3 4 []) as (H & _).
  apply (H (lit "data:image/png;base64") (lit "QUJD")).
  - reflexivity.
  - vm_compute. intuition discriminate.
  - vm_compute. intuition discriminate.
Defined.

(** A defect beside C7: the payload is taken as the second piece of
    the split at every comma, not as all that follows the first. For a
    file whose type holds a comma the data URL has two, and what is
    sent as data is a fragment of the prefix instead of the payload. *)
Lemma analyzeImage_second_comma_sends_prefix_fragment :
  requests (fst (call (reading (Loaded (lit "data:a,b;base64,QUJD")) (lit "ok"))
                   [1; 2; 3; 4] (analyzeImage demo_client odd_file)))
  = [analysis_request demo_client odd_file (Some (lit "b;base64"))]
  /\ lit "b;base64" <> lit "QUJD".
Proof.
  split.
  - rewrite analyzeImage_requests. reflexivity.
  - intros H. apply lit_inj in H. discriminate H.
Qed.

(** C9: the promise around the file read has a resolve path only. The
    executor installs a single callback, on [loadend]; whatever the
    read ends with, the promise is fulfilled with the reader's result,
    [null] after a failed read, and is never rejected. A failed read
    surfaces in the next task, when [split] is read off [null]: the
    [TypeError] lands in the surrounding [catch], which logs it and
    rejects with the wrapped message, and no request has been sent. *)
Theorem file_read_promise_only_resolves :
  (onload read_executor_handlers = None
   /\ onerror read_executor_handlers = None
   /\ onloadend read_executor_handlers = Some ResolveWithResult)
  /\ (forall o, file_read_promise o = Fulfilled (reader_result o))
  /\ (forall o e, file_read_promise o <> RejectedWith e)
  /\ reader_result Failed = None
  /\ (forall sv genAI file t1 t2 rest,
        readAsDataURL sv file = Failed ->
        (exists p, snd (call sv [t1] (analyzeImage genAI file)) = Parked p)
        /\ snd (call sv (t1 :: t2 :: rest) (analyzeImage genAI file))
           = Finished (Rejected (Error (analysis_failure_prefix
                                          ++ null_member_message (lit "split"))))
        /\ In (EvConsole (console_error
                            [LStr (lit "Image analysis error:");
                             LErrorInfo (lit "TypeError")
                                        (null_member_message (lit "split"))]))
              (fst (call sv (t1 :: t2 :: rest) (analyzeImage genAI file)))
        /\ requests (fst (call sv (t1 :: t2 :: rest)
                             (analyzeImage genAI file)))
           = []).
Proof.
  split; [repeat split|].
  split; [intros [d|]; reflexivity|].
  split; [intros [d|] e; discriminate|].
  split; [reflexivity|].
  intros sv genAI file t1 t2 rest Hread.
  rewrite (analyzeImage_failed_read _ _ _ _ _ _ Hread).
  split; [eexists; reflexivity|].
  split; [reflexivity|].
  split; [|reflexivity].
  cbn. right. right. left. reflexivity.
Qed.

Lemma file_read_promise_only_resolves_witness :
  snd (call (reading Failed (lit "ok")) [1; 2]
         (analyzeImage demo_client demo_file))
  = Finished (Rejected (Error (analysis_failure_prefix
                                 ++ null_member_message (lit "split")))).
Proof.
  destruct file_read_promise_only_resolves as (_ & _ & _ & _ & H).
  destruct (H (reading Failed (lit "ok")) demo_client demo_file 1 2 [] eq_refl)
    as (_ & Hout & _).
  exact Hout.
Defined.

(** ** Two calls in flight *)

(** A call's thread sees the loop only through its own service answers
    and the clock readings of its own tasks. *)
Lemma fold_step2_left {A} (svL svR : Services) (s : Schedule) (c : Pair A) :
  left (fold_left (step2 svL svR) s c)
  = snd (run_tasks svL (clocks_of L (clock c) s) (left c)).
Proof.
  revert c. induction s as [|[sd d] rest IH]; intros c; [reflexivity|].
  cbn [fold_left clocks_of]. rewrite IH. unfold step2. cbn [fst snd].
  destruct sd; cbn [side_eqb].
  - destruct (resume svL (clock c + d) (left c)) as [evs th] eqn:Hr.
    cbn [clock left run_tasks]. rewrite Hr.
    destruct (run_tasks svL _ th). reflexivity.
  - destruct (resume svR (clock c + d) (right c)) as [evs th]. reflexivity.
Qed.

Lemma fold_step2_right {A} (svL svR : Services) (s : Schedule) (c : Pair A) :
  right (fold_left (step2 svL svR) s c)
  = snd (run_tasks svR (clocks_of R (clock c) s) (right c)).
Proof.
  revert c. induction s as [|[sd d] rest IH]; intros c; [reflexivity|].
  cbn [fold_left clocks_of]. rewrite IH. unfold step2. cbn [fst snd].
  destruct sd; cbn [side_eqb].
  - destruct (resume svL (clock c + d) (left c)) as [evs th]. reflexivity.
  - destruct (resume svR (clock c + d) (right c)) as [evs th] eqn:Hr.
    cbn [clock right run_tasks]. rewrite Hr.
    destruct (run_tasks svR _ th). reflexivity.
Qed.

Lemma run2_left {A} svL svR t0 (pL pR : Prog A) s :
  left (run2 svL svR t0 pL pR s) = snd (call svL (clocks_of L t0 s) pL).
Proof. unfold run2, call. rewrite fold_step2_left. reflexivity. Qed.

Lemma run2_right {A} svL svR t0 (pL pR : Prog A) s :
  right (run2 svL svR t0 pL pR s) = snd (call svR (clocks_of R t0 s) pR).
Proof. unfold run2, call. rewrite fold_step2_right. reflexivity. Qed.

(** A [sendMessage] call that has resolved built its message from its
    own response, at the clock of its third task. *)
Lemma sendMessage_resolved_inv sv genAI message clocks msg :
  snd (call sv clocks (sendMessage genAI message)) = Finished (Resolved msg) ->
  exists result txt,
    generateContent sv (chat_request genAI message) = Normal result
    /\ text (response result) = Normal txt
    /\ txt <> []
    /\ In (timestamp msg) clocks
    /\ msg = {| id := toString (timestamp msg); role := assistant;
                content := trim txt; timestamp := timestamp msg |}.
Proof.
  destruct clocks as [|t1 [|t2 [|t3 rest]]].
  - discriminate.
  - unfold call. cbn. discriminate.
  - unfold call, chat_request. cbn.
    destruct (generateContent sv _) as [[[[txt|e]]]|e]; cbn; discriminate.
  - rewrite sendMessage_three_tasks. unfold sendMessage_outcome.
    destruct (generateContent sv _) as [[[[[|c r]|e]]]|e]; try discriminate.
    intros H. injection H as <-. exists {| response := {| text := Normal (c :: r) |} |}, (c :: r).
    repeat split; [discriminate|]. cbn. auto.
Qed.

(** *** The same, with a clock that ticks inside a task *)

(** A task without ticks is a task of [Loop]. *)
Lemma ticking_sync_still {A} (clock : N) (p : Prog A) :
  Ticking.sync clock [] p = sync clock p.
Proof.
  induction p as [a|e|l k IH|k IH|req k IH|f k IH|k IH]; cbn; try reflexivity.
  - rewrite IH. reflexivity.
  - apply IH.
Qed.

Lemma ticking_resume_still {A} (sv : Services) (clock : N) (th : Thread A) :
  Ticking.resume sv clock [] th = resume sv clock th.
Proof.
  destruct th as [p|p|o]; cbn; [apply ticking_sync_still| |reflexivity].
  destruct p; try apply ticking_sync_still.
  destruct (file_read_promise (readAsDataURL sv f)); try apply ticking_sync_still.
  reflexivity.
Qed.

Lemma ticking_finished_stays {A} (sv : Services) tasks (o : Outcome A) :
  Ticking.run_tasks sv tasks (Finished o) = ([], Finished o).
Proof.
  induction tasks as [|[t ticks] rest IH]; [reflexivity|].
  cbn [Ticking.run_tasks Ticking.resume]. rewrite IH. reflexivity.
Qed.

Lemma ticking_fold_step2_left {A} (svL svR : Services) (s : list Ticking.Task) (c : Pair A) :
  left (fold_left (Ticking.step2 svL svR) s c)
  = snd (Ticking.run_tasks svL (Ticking.tasks_of L (clock c) s) (left c)).
Proof.
  revert c. induction s as [|[sd d ticks] rest IH]; intros c; [reflexivity|].
  cbn [fold_left Ticking.tasks_of]. rewrite IH. unfold Ticking.step2.
  cbn [Ticking.task_side Ticking.task_delay Ticking.task_ticks].
  destruct sd.
  - destruct (Ticking.resume svL (clock c + d) ticks (left c)) as [evs th] eqn:Hr.
    cbn [clock left Ticking.run_tasks]. rewrite Hr.
    destruct (Ticking.run_tasks svL _ th). reflexivity.
  - destruct (Ticking.resume svR (clock c + d) ticks (right c)) as [evs th]. reflexivity.
Qed.

Lemma ticking_fold_step2_right {A} (svL svR : Services) (s : list Ticking.Task) (c : Pair A) :
  right (fold_left (Ticking.step2 svL svR) s c)
  = snd (Ticking.run_tasks svR (Ticking.tasks_of R (clock c) s) (right c)).
Proof.
  revert c. induction s as [|[sd d ticks] rest IH]; intros c; [reflexivity|].
  cbn [fold_left Ticking.tasks_of]. rewrite IH. unfold Ticking.step2.
  cbn [Ticking.task_side Ticking.task_delay Ticking.task_ticks].
  destruct sd.
  - destruct (Ticking.resume svL (clock c + d) ticks (left c)) as [evs th]. reflexivity.
  - destruct (Ticking.resume svR (clock c + d) ticks (right c)) as [evs th] eqn:Hr.
    cbn [clock right Ticking.run_tasks]. rewrite Hr.
    destruct (Ticking.run_tasks svR _ th). reflexivity.
Qed.

Lemma ticking_run2_left {A} svL svR t0 (pL pR : Prog A) s :
  left (Ticking.run2 svL svR t0 pL pR s)
  = snd (Ticking.run_tasks svL (Ticking.tasks_of L t0 s) (Fresh pL)).
Proof. unfold Ticking.run2. rewrite ticking_fold_step2_left. reflexivity. Qed.

Lemma ticking_run2_right {A} svL svR t0 (pL pR : Prog A) s :
  right (Ticking.run2 svL svR t0 pL pR s)
  = snd (Ticking.run_tasks svR (Ticking.tasks_of R t0 s) (Fresh pR)).
Proof. unfold Ticking.run2. rewrite ticking_fold_step2_right. reflexivity. Qed.

(** A resolved [sendMessage] call built its message in its third
    task, from its own response: [Date.now()] is the first reading of
    that task, [new Date()] the second, one tick later. *)
Lemma sendMessage_ticking_resolved_inv sv genAI message tasks msg :
  snd (Ticking.run_tasks sv tasks (Fresh (sendMessage genAI message)))
    = Finished (Resolved msg) ->
  exists result txt t ticks,
    generateContent sv (chat_request genAI message) = Normal result
    /\ text (response result) = Normal txt
    /\ tasks !! 2%nat = Some (t, ticks)
    /\ msg = {| id := toString t; role := assistant;
                content := trim txt; timestamp := t + hd 0 ticks |}.
Proof.
  destruct tasks as [|[t1 k1] [|[t2 k2] [|[t3 k3] rest]]].
  - discriminate.
  - cbn. discriminate.
  - unfold chat_request. cbn.
    destruct (generateContent sv _) as [[[[txt|e]]]|e]; cbn; discriminate.
  - unfold chat_request. cbn.
    destruct (generateContent sv _) as [[[[[|c r]|e]]]|e] eqn:Hg; cbn;
      try (rewrite ticking_finished_stays; discriminate).
    destruct k3 as [|d [|d' k3]]; cbn; rewrite ticking_finished_stays; cbn;
      intros H; injection H as <-;
      exists {| response := {| text := Normal (c :: r) |} |}, (c :: r), t3;
      eexists;
      (split; [reflexivity|]); (split; [reflexivity|]); (split; [reflexivity|]);
      cbn; rewrite ?N.add_0_r; reflexivity.
Qed.

(** C6, as stated, fails on the identifiers: two calls with different
    inputs and different responses that read [Date.now()] within the
    same millisecond resolve with the same [id] (here their
    timestamps, read later, differ). *)
Lemma concurrent_sendMessage_same_id :
  exists a b,
    left (Ticking.run2 echoing echoing 1000
            (sendMessage demo_client (lit "fever"))
            (sendMessage demo_client (lit "cough")) same_millisecond)
      = Finished (Resolved a)
    /\ right (Ticking.run2 echoing echoing 1000
                (sendMessage demo_client (lit "fever"))
                (sendMessage demo_client (lit "cough")) same_millisecond)
      = Finished (Resolved b)
    /\ lit "fever" <> lit "cough"
    /\ content a <> content b
    /\ timestamp a <> timestamp b
    /\ id a = id b.
Proof.
  eexists. eexists.
  split; [vm_compute; reflexivity|].
  split; [vm_compute; reflexivity|].
  split; [intros H; apply lit_inj in H; discriminate H|].
  split; [|split; [cbn; lia|reflexivity]].
  cbn [content]. intros H.
  apply (f_equal (fun l => nth (length medicalChatService.prompt_head) l 0)) in H.
  vm_compute in H. discriminate H.
Qed.

(** C6 (amended): two calls of [sendMessage] in flight on one loop,
    under any schedule and any ticking of the clock, are independent
    in their content: each resolved message carries the trimmed text
    of the response to its own request, and neither result changes
    when the other call's input or responses change. Each [id] is the
    decimal of what [Date.now()] read when the call built its message
    (the first reading of the call's third task; the timestamp is the
    next reading, one tick later), so the two identifiers differ
    exactly when those two readings differ. *)
Theorem concurrent_sendMessage_independent svL svR genAI mL mR t0 s a b :
  left (Ticking.run2 svL svR t0 (sendMessage genAI mL) (sendMessage genAI mR) s)
    = Finished (Resolved a) ->
  right (Ticking.run2 svL svR t0 (sendMessage genAI mL) (sendMessage genAI mR) s)
    = Finished (Resolved b) ->
  (exists result txt,
      generateContent svL (chat_request genAI mL) = Normal result
      /\ text (response result) = Normal txt /\ content a = trim txt)
  /\ (exists result txt,
      generateContent svR (chat_request genAI mR) = Normal result
      /\ text (response result) = Normal txt /\ content b = trim txt)
  /\ (forall svR' mR',
        left (Ticking.run2 svL svR' t0 (sendMessage genAI mL) (sendMessage genAI mR') s)
        = Finished (Resolved a))
  /\ (forall svL' mL',
        right (Ticking.run2 svL' svR t0 (sendMessage genAI mL') (sendMessage genAI mR) s)
        = Finished (Resolved b))
  /\ (exists tA ticksA tB ticksB,
        Ticking.tasks_of L t0 s !! 2%nat = Some (tA, ticksA)
        /\ Ticking.tasks_of R t0 s !! 2%nat = Some (tB, ticksB)
        /\ id a = toString tA /\ timestamp a = tA + hd 0 ticksA
        /\ id b = toString tB /\ timestamp b = tB + hd 0 ticksB
        /\ (id a <> id b <-> tA <> tB)).
Proof.
  rewrite ticking_run2_left, ticking_run2_right. intros Ha Hb.
  destruct (sendMessage_ticking_resolved_inv _ _ _ _ _ Ha)
    as (rL & xL & tA & kA & HgL & HtL & HnL & Ea).
  destruct (sendMessage_ticking_resolved_inv _ _ _ _ _ Hb)
    as (rR & xR & tB & kB & HgR & HtR & HnR & Eb).
  split; [exists rL, xL; repeat split; [exact HgL|exact HtL|rewrite Ea; reflexivity]|].
  split; [exists rR, xR; repeat split; [exact HgR|exact HtR|rewrite Eb; reflexivity]|].
  split; [intros svR' mR'; rewrite ticking_run2_left; exact Ha|].
  split; [intros svL' mL'; rewrite ticking_run2_right; exact Hb|].
  exists tA, kA, tB, kB. rewrite Ea, Eb. cbn [id timestamp].
  repeat split; try assumption.
  - intros Hne Heq. apply Hne. rewrite Heq. reflexivity.
  - intros Hne Heq. apply Hne. apply toString_inj. exact Heq.
Qed.

Lemma concurrent_sendMessage_independent_witness :
  exists a b,
    left (Ticking.run2 echoing echoing 1000
            (sendMessage demo_client (lit "fever"))
            (sendMessage demo_client (lit "cough")) five_apart)
      = Finished (Resolved a)
    /\ right (Ticking.run2 echoing echoing 1000
                (sendMessage demo_client (lit "fever"))
                (sendMessage demo_client (lit "cough")) five_apart)
      = Finished (Resolved b)
    /\ id a <> id b.
Proof.
  eexists. eexists.
  assert (Ha : left (Ticking.run2 echoing echoing 1000
            (sendMessage demo_client (lit "fever"))
            (sendMessage demo_client (lit "cough")) five_apart)
      = Finished (Resolved
          {| id := toString 1043; role := assistant;
             content := trim (medicalChatService.prompt (lit "fever"));
             timestamp := 1044 |}))
    by (vm_compute; reflexivity).
  assert (Hb : right (Ticking.run2 echoing echoing 1000
            (sendMessage demo_client (lit "fever"))
            (sendMessage demo_client (lit "cough")) five_apart)
      = Finished (Resolved
          {| id := toString 1048; role := assistant;
             content := trim (medicalChatService.prompt (lit "cough"));
             timestamp := 1049 |}))
    by (vm_compute; reflexivity).
  split; [exact Ha|]. split; [exact Hb|].
  destruct (concurrent_sendMessage_independent _ _ _ _ _ _ _ _ _ Ha Hb)
    as (_ & _ & _ & _ & tA & kA & tB & kB & HnA & HnB & _ & _ & _ & _ & Hiff).
  apply Hiff. vm_compute in HnA, HnB. congruence.
Defined.

(** ** Voice adapter *)

Import Voice VoiceFacts.

(** *** A settled promise stays as it is *)

Lemma same_settlement_refl w : same_settlement w w.
Proof. split; reflexivity. Qed.

Lemma same_settlement_trans w1 w2 w3 :
  same_settlement w1 w2 -> same_settlement w2 w3 -> same_settlement w1 w3.
Proof. intros [H1 H2] [H3 H4]. split; congruence. Qed.

Lemma with_promise_settled f w :
  settled (promise w) = true ->
  (forall p, settled p = true -> f p = p) ->
  same_settlement w (with_promise f w).
Proof.
  intros Hs Hf. unfold same_settlement, with_promise. cbn.
  rewrite Hs. split; [apply Hf, Hs|reflexivity].
Qed.

Lemma resolve_settled {V E} (v : V) (p : PState V E) :
  settled p = true -> resolve v p = p.
Proof. destruct p; [discriminate|reflexivity|reflexivity]. Qed.

Lemma reject_settled {V E} (e : E) (p : PState V E) :
  settled p = true -> reject e p = p.
Proof. destruct p; [discriminate|reflexivity|reflexivity]. Qed.

Lemma exec_stmt_settled arg s w w' :
  settled (promise w) = true ->
  exec_stmt arg s w = Normal w' -> same_settlement w w'.
Proof.
  intros Hs. destruct s; cbn; intros H;
    try (injection H as <-; first
           [ split; reflexivity
           | apply with_promise_settled;
             [exact Hs|intros p; first [apply resolve_settled|apply reject_settled]] ]).
  revert H. destruct (first_transcript arg); [|discriminate].
  intros H. injection H as <-.
  apply with_promise_settled; [exact Hs|intros p; apply resolve_settled].
Qed.

Lemma run_callback_settled arg cb w :
  settled (promise w) = true -> same_settlement w (run_callback arg cb w).
Proof.
  revert w. induction cb as [|s rest IH]; intros w Hs; cbn.
  - apply same_settlement_refl.
  - destruct (exec_stmt arg s w) as [w'|e] eqn:He.
    + pose proof (exec_stmt_settled _ _ _ _ Hs He) as Hw.
      apply (same_settlement_trans _ _ _ Hw). apply IH.
      destruct Hw as [Hp _]. rewrite Hp. exact Hs.
    + split; reflexivity.
Qed.

Lemma dispatch_settled ev w :
  settled (promise w) = true -> same_settlement w (dispatch ev w).
Proof.
  intros Hs. unfold dispatch. destruct (event_slot ev w).
  - apply run_callback_settled, Hs.
  - apply same_settlement_refl.
Qed.

Lemma fire_settled tm w :
  settled (promise w) = true -> same_settlement w (fire tm w).
Proof.
  intros Hs. unfold fire.
  apply (same_settlement_trans _
           (with_time (N.max (time w) (deadline tm)) (clearTimeout (timer_id tm) w)));
    [split; reflexivity|].
  apply run_callback_settled. exact Hs.
Qed.

Lemma fire_due_settled fuel t w :
  settled (promise w) = true -> same_settlement w (fire_due fuel t w).
Proof.
  revert w. induction fuel as [|n IH]; intros w Hs; cbn.
  - apply same_settlement_refl.
  - destruct (earliest (timers w)) as [tm|]; [|apply same_settlement_refl].
    destruct (deadline tm <=? t); [|apply same_settlement_refl].
    pose proof (fire_settled tm w Hs) as Hw.
    apply (same_settlement_trans _ _ _ Hw). apply IH.
    destruct Hw as [Hp _]. rewrite Hp. exact Hs.
Qed.

Lemma advance_settled t w :
  settled (promise w) = true -> same_settlement w (advance t w).
Proof.
  intros Hs. unfold advance.
  apply (same_settlement_trans _ (fire_due (length (timers w)) t w));
    [apply fire_due_settled, Hs|split; reflexivity].
Qed.

Lemma run_until_settled T evs w :
  settled (promise w) = true -> same_settlement w (run_until T evs w).
Proof.
  revert w. induction evs as [|[d ev] rest IH]; intros w Hs; cbn.
  - apply advance_settled, Hs.
  - destruct (T <? time w + d); [apply advance_settled, Hs|].
    pose proof (advance_settled (time w + d) w Hs) as H1.
    assert (Hs1 : settled (promise (advance (time w + d) w)) = true)
      by (destruct H1 as [Hp _]; rewrite Hp; exact Hs).
    pose proof (dispatch_settled ev _ Hs1) as H2.
    assert (Hs2 : settled (promise (dispatch ev (advance (time w + d) w))) = true)
      by (destruct H2 as [Hp _]; rewrite Hp; exact Hs1).
    apply (same_settlement_trans _ _ _ H1).
    apply (same_settlement_trans _ _ _ H2).
    apply IH, Hs2.
Qed.

(** *** Quiet callbacks throw nothing *)

Lemma calm_refl w : calm w w.
Proof. unfold calm. repeat split; try reflexivity. apply incl_refl. Qed.

Lemma calm_trans w1 w2 w3 : calm w1 w2 -> calm w2 w3 -> calm w1 w3.
Proof.
  intros (A1 & A2 & A3 & A4 & A5 & A6) (B1 & B2 & B3 & B4 & B5 & B6).
  unfold calm. repeat split; try congruence.
  eapply incl_tran; eassumption.
Qed.

Lemma calm_quiet w w' : calm w w' -> quiet_world w -> quiet_world w'.
Proof.
  intros (A1 & A2 & A3 & A4 & A5 & A6) (B1 & B2 & B3 & B4 & B5).
  unfold quiet_world. rewrite A1, A2, A3, A4. repeat split; try assumption.
  rewrite List.Forall_forall in *. intros tm Hin. apply B5, A5, Hin.
Qed.

Lemma exec_stmt_calm arg s w :
  quiet_stmt s = true -> exists w', exec_stmt arg s w = Normal w' /\ calm w w'.
Proof.
  destruct s; cbn; intros Hq; try discriminate;
    (eexists; split; [reflexivity|]);
    unfold calm; cbn; repeat split; try apply incl_refl.
  apply incl_filter.
Qed.

Lemma run_callback_calm arg cb w :
  quiet_cb cb = true -> calm w (run_callback arg cb w).
Proof.
  revert w. induction cb as [|s rest IH]; intros w Hq; cbn.
  - apply calm_refl.
  - cbn in Hq. apply andb_prop in Hq as [Hs Hrest].
    destruct (exec_stmt_calm arg s w Hs) as (w' & -> & Hc).
    apply (calm_trans _ _ _ Hc). apply IH, Hrest.
Qed.

Lemma dispatch_calm ev w : quiet_world w -> calm w (dispatch ev w).
Proof.
  intros (B1 & B2 & B3 & B4 & B5). unfold dispatch.
  destruct ev; cbn;
    [destruct (rec_onresult w)|destruct (rec_onerror w)
    |destruct (utt_onend w)|destruct (utt_onerror w)];
    first [apply run_callback_calm; assumption|apply calm_refl].
Qed.

Lemma earliest_In l tm : earliest l = Some tm -> In tm l.
Proof.
  revert tm. induction l as [|a rest IH]; intros tm; cbn; [discriminate|].
  destruct (earliest rest) as [tm'|].
  - destruct (deadline tm' <? deadline a); intros H; injection H as <-.
    + right. apply IH. reflexivity.
    + left. reflexivity.
  - intros H. injection H as <-. left. reflexivity.
Qed.

Lemma fire_calm tm w :
  quiet_cb (callback tm) = true -> calm w (fire tm w).
Proof.
  intros Hq. unfold fire.
  apply (calm_trans _
           (with_time (N.max (time w) (deadline tm)) (clearTimeout (timer_id tm) w))).
  - unfold calm. cbn. repeat split. apply incl_filter.
  - apply run_callback_calm, Hq.
Qed.

Lemma fire_due_calm fuel t w : quiet_world w -> calm w (fire_due fuel t w).
Proof.
  revert w. induction fuel as [|n IH]; intros w Hq; cbn.
  - apply calm_refl.
  - destruct (earliest (timers w)) as [tm|] eqn:He; [|apply calm_refl].
    destruct (deadline tm <=? t); [|apply calm_refl].
    assert (Hcb : quiet_cb (callback tm) = true).
    { destruct Hq as (_ & _ & _ & _ & Hall). rewrite List.Forall_forall in Hall.
      apply Hall, earliest_In, He. }
    pose proof (fire_calm tm w Hcb) as Hc.
    apply (calm_trans _ _ _ Hc). apply IH. apply (calm_quiet _ _ Hc Hq).
Qed.

Lemma advance_calm t w : quiet_world w -> calm w (advance t w).
Proof.
  intros Hq. unfold advance.
  apply (calm_trans _ (fire_due (length (timers w)) t w)).
  - apply fire_due_calm, Hq.
  - unfold calm. cbn. repeat split. apply incl_refl.
Qed.

Lemma run_until_calm T evs w : quiet_world w -> calm w (run_until T evs w).
Proof.
  revert w. induction evs as [|[d ev] rest IH]; intros w Hq; cbn.
  - apply advance_calm, Hq.
  - destruct (T <? time w + d); [apply advance_calm, Hq|].
    pose proof (advance_calm (time w + d) w Hq) as H1.
    pose proof (calm_quiet _ _ H1 Hq) as Hq1.
    pose proof (dispatch_calm ev _ Hq1) as H2.
    pose proof (calm_quiet _ _ H2 Hq1) as Hq2.
    apply (calm_trans _ _ _ H1). apply (calm_trans _ _ _ H2). apply IH, Hq2.
Qed.

Lemma speak_quiet this text t :
  quiet_world (speak this text t).
Proof.
  unfold speak. destruct (synthesis this); cbn; unfold quiet_world; cbn;
    repeat split; auto.
Qed.

(** *** The [speak] call *)

Import SpeakFacts.

Lemma speak_armed this text t syn :
  synthesis this = Some syn -> armed t (speak this text t).
Proof.
  intros Hs. unfold speak. rewrite Hs. unfold armed. cbn.
  repeat split; try reflexivity; unfold timeout_ms; lia.
Qed.

Lemma settled_by_settled t w w' :
  same_settlement w w' -> settled_by t w -> settled_by t w'.
Proof.
  intros [Hp Ha] [Hs (ts & Hat & Hle)].
  split; [rewrite Hp; exact Hs|].
  exists ts. rewrite Ha. split; assumption.
Qed.

Lemma settled_by_run t T evs w :
  settled_by t w -> settled_by t (run_until T evs w).
Proof.
  intros H. apply (settled_by_settled t w); [|exact H].
  apply run_until_settled. apply H.
Qed.

(** The fallback timer settles a call that is still armed. *)
Lemma armed_timeout t w :
  armed t w ->
  promise (advance (t + timeout_ms) w) = Fulfilled VUndefined
  /\ settledAt (advance (t + timeout_ms) w) = Some (t + timeout_ms).
Proof.
  intros (Hp & Ha & Ht & Htime & _).
  unfold advance. rewrite Ht. cbn [length fire_due].
  rewrite Ht. cbn [earliest fallback_timer deadline].
  rewrite N.leb_refl. unfold fire. cbn. rewrite Hp. cbn.
  split; [reflexivity|f_equal; lia].
Qed.

Lemma armed_timeout_settled_by t w :
  armed t w -> settled_by t (advance (t + timeout_ms) w).
Proof.
  intros H. destruct (armed_timeout t w H) as [Hp Ha].
  split; [rewrite Hp; reflexivity|].
  exists (t + timeout_ms). split; [exact Ha|lia].
Qed.

(** Before the deadline the clock moves and nothing else does. *)
Lemma armed_wait t w t' :
  armed t w -> time w <= t' -> t' < t + timeout_ms ->
  advance t' w = with_time t' w.
Proof.
  intros (Hp & Ha & Ht & Htime & _) Hle Hlt.
  unfold advance. rewrite Ht. cbn [length fire_due].
  rewrite Ht. cbn [earliest fallback_timer deadline].
  destruct (N.leb_spec (t + timeout_ms) t') as [Hge|_]; [lia|].
  f_equal. lia.
Qed.

Lemma armed_with_time t w t' :
  armed t w -> time w <= t' -> t' <= t + timeout_ms -> armed t (with_time t' w).
Proof.
  intros (Hp & Ha & Ht & Htime & H5 & H6 & H7 & H8) Hle Hlt.
  unfold armed. cbn. repeat split; try assumption; lia.
Qed.

(** The end event settles an armed call and disarms the timer. *)
Lemma armed_end t w :
  armed t w ->
  promise (dispatch UtteranceEnd w) = Fulfilled VUndefined
  /\ settledAt (dispatch UtteranceEnd w) = Some (time w)
  /\ timers (dispatch UtteranceEnd w) = [].
Proof.
  intros (Hp & Ha & Ht & Htime & H5 & H6 & H7 & H8).
  unfold dispatch. cbn [event_slot]. rewrite H7. cbn.
  rewrite Hp, Ht. cbn. repeat split.
Qed.

(** The error event rejects an armed call with the event. *)
Lemma armed_error t w code :
  armed t w ->
  promise (dispatch (UtteranceError code) w) = RejectedWith (VEvent [] (Some code))
  /\ settledAt (dispatch (UtteranceError code) w) = Some (time w).
Proof.
  intros (Hp & Ha & Ht & Htime & H5 & H6 & H7 & H8).
  unfold dispatch. cbn [event_slot]. rewrite H8. cbn.
  rewrite Hp. cbn. repeat split.
Qed.

Lemma armed_dispatch t w ev :
  armed t w -> armed t (dispatch ev w) \/ settled_by t (dispatch ev w).
Proof.
  intros H. destruct ev as [r|c| |c].
  - left. pose proof H as (_ & _ & _ & _ & H5 & _).
    unfold dispatch. cbn [event_slot]. rewrite H5. exact H.
  - left. pose proof H as (_ & _ & _ & _ & _ & H6 & _).
    unfold dispatch. cbn [event_slot]. rewrite H6. exact H.
  - right. destruct (armed_end t w H) as (Hp & Ha & _).
    split; [rewrite Hp; reflexivity|].
    exists (time w). split; [exact Ha|apply H].
  - right. destruct (armed_error t w c H) as (Hp & Ha).
    split; [rewrite Hp; reflexivity|].
    exists (time w). split; [exact Ha|apply H].
Qed.

Lemma armed_run t evs w :
  armed t w -> settled_by t (run_until (t + timeout_ms) evs w).
Proof.
  revert w. induction evs as [|[d ev] rest IH]; intros w H; cbn [run_until].
  - apply armed_timeout_settled_by, H.
  - destruct (N.ltb_spec (t + timeout_ms) (time w + d)) as [Hlate|Hin].
    + apply armed_timeout_settled_by, H.
    + destruct (N.eq_dec (time w + d) (t + timeout_ms)) as [Heq|Hne].
      * rewrite Heq. apply settled_by_run.
        pose proof (armed_timeout_settled_by t w H) as Hs.
        apply (settled_by_settled t _ _ (dispatch_settled ev _ (proj1 Hs)) Hs).
      * rewrite (armed_wait t w (time w + d) H); [|lia|lia].
        assert (Hw : armed t (with_time (time w + d) w))
          by (apply armed_with_time; [exact H|lia|lia]).
        destruct (armed_dispatch t _ ev Hw) as [Ha|Hs].
        -- apply IH, Ha.
        -- apply settled_by_run, Hs.
Qed.

(** The per-call guards: on a service object whose capability field
    is null the call rejects as soon as it is made, with the fixed
    string: the promise is rejected at the call's own instant, no
    recognition session has been started, no callback installed, no
    timer armed and no utterance queued. *)
Lemma missing_capability_rejects_immediately this text t :
  (recognition this = None ->
     let w := startListening this t in
     promise w = RejectedWith (VString (lit "Speech recognition not supported"))
     /\ settledAt w = Some t /\ time w = t
     /\ sessions w = 0%nat /\ timers w = []
     /\ rec_onresult w = None /\ rec_onerror w = None)
  /\ (synthesis this = None ->
     let w := speak this text t in
     promise w = RejectedWith (VString (lit "Speech synthesis not supported"))
     /\ settledAt w = Some t /\ time w = t
     /\ spoken w = [] /\ timers w = []
     /\ utt_onend w = None /\ utt_onerror w = None).
Proof.
  split; intros Hnone w; subst w.
  - unfold startListening. rewrite Hnone. cbn. repeat split.
  - unfold speak. rewrite Hnone. cbn. repeat split.
Qed.

Lemma missing_capability_rejects_immediately_witness :
  promise (startListening incapable 500)
    = RejectedWith (VString (lit "Speech recognition not supported"))
  /\ promise (speak incapable (lit "hello") 500)
    = RejectedWith (VString (lit "Speech synthesis not supported")).
Proof.
  destruct (missing_capability_rejects_immediately incapable (lit "hello") 500)
    as [Hrec Hsyn].
  split.
  - apply (Hrec eq_refl).
  - apply (Hsyn eq_refl).
Defined.

(** C4: with the synthesis capability present, a [speak] call made at
    [t] is settled at [t + 10000] whatever the engine fires or fails
    to fire, and was settled no later than that. If the engine fires
    nothing in time the fallback timer resolves the call at
    [t + 10000] (and the call is pending until then); if the end event
    comes first, the call resolves when it comes. (An error event
    that comes first settles the call too, by rejection.) *)
Theorem speak_settles_within_timeout this syn text t evs :
  synthesis this = Some syn ->
  let w := run_until (t + 10000) evs (speak this text t) in
  (settled (promise w) = true
   /\ exists ts, settledAt w = Some ts /\ t <= ts <= t + 10000)
  /\ (evs = [] ->
      promise w = Fulfilled VUndefined /\ settledAt w = Some (t + 10000))
  /\ (forall d ev rest, evs = (d, ev) :: rest -> 10000 < d ->
      promise w = Fulfilled VUndefined /\ settledAt w = Some (t + 10000))
  /\ (forall d rest, evs = (d, UtteranceEnd) :: rest -> d < 10000 ->
      promise w = Fulfilled VUndefined /\ settledAt w = Some (t + d))
  /\ (forall d code rest, evs = (d, UtteranceError code) :: rest -> d < 10000 ->
      promise w = RejectedWith (VEvent [] (Some code)) /\ settledAt w = Some (t + d))
  /\ (forall T, T < t + 10000 ->
      promise (run_until T [] (speak this text t)) = Pending).
Proof.
  intros Hsyn w. subst w.
  pose proof (speak_armed this text t syn Hsyn) as Harmed.
  assert (Htime : time (speak this text t) = t)
    by (unfold speak; rewrite Hsyn; reflexivity).
  change (t + 10000) with (t + timeout_ms).
  split; [exact (armed_run t evs _ Harmed)|].
  split; [intros ->; exact (armed_timeout t _ Harmed)|].
  split; [|split; [|split]].
  - intros d ev rest -> Hd. cbn [run_until]. rewrite Htime.
    destruct (N.ltb_spec (t + timeout_ms) (t + d)) as [_|Hle];
      [|unfold timeout_ms in Hle; lia].
    exact (armed_timeout t _ Harmed).
  - intros d rest -> Hd. cbn [run_until]. rewrite Htime.
    destruct (N.ltb_spec (t + timeout_ms) (t + d)) as [Hlt|_];
      [unfold timeout_ms in Hlt; lia|].
    rewrite (armed_wait t _ (t + d) Harmed);
      [|rewrite Htime; lia|unfold timeout_ms; lia].
    assert (Hw : armed t (with_time (t + d) (speak this text t)))
      by (apply armed_with_time;
          [exact Harmed|rewrite Htime; lia|unfold timeout_ms; lia]).
    destruct (armed_end t _ Hw) as (Hp & Ha & _).
    assert (Hs : settled (promise (dispatch UtteranceEnd
                                     (with_time (t + d) (speak this text t)))) = true)
      by (rewrite Hp; reflexivity).
    destruct (run_until_settled (t + timeout_ms) rest _ Hs) as [Hp' Ha'].
    rewrite Hp', Ha', Hp, Ha. split; reflexivity.
  - intros d code rest -> Hd. cbn [run_until]. rewrite Htime.
    destruct (N.ltb_spec (t + timeout_ms) (t + d)) as [Hlt|_];
      [unfold timeout_ms in Hlt; lia|].
    rewrite (armed_wait t _ (t + d) Harmed);
      [|rewrite Htime; lia|unfold timeout_ms; lia].
    assert (Hw : armed t (with_time (t + d) (speak this text t)))
      by (apply armed_with_time;
          [exact Harmed|rewrite Htime; lia|unfold timeout_ms; lia]).
    destruct (armed_error t _ code Hw) as (Hp & Ha).
    assert (Hs : settled (promise (dispatch (UtteranceError code)
                                     (with_time (t + d) (speak this text t)))) = true)
      by (rewrite Hp; reflexivity).
    destruct (run_until_settled (t + timeout_ms) rest _ Hs) as [Hp' Ha'].
    rewrite Hp', Ha', Hp, Ha. split; reflexivity.
  - intros T HT. cbn [run_until].
    destruct Harmed as (Hp & _ & Ht & _).
    unfold advance. rewrite Ht. cbn [length fire_due].
    rewrite Ht. cbn [earliest fallback_timer deadline].
    destruct (N.leb_spec (t + timeout_ms) T) as [Hge|_]; [lia|].
    exact Hp.
Qed.

Lemma speak_settles_within_timeout_witness :
  promise (run_until (700 + 10000) [] (speak capable (lit "hello") 700))
    = Fulfilled VUndefined
  /\ settledAt (run_until (700 + 10000) [] (speak capable (lit "hello") 700))
    = Some (700 + 10000).
Proof.
  destruct (speak_settles_within_timeout capable SynthesisObject (lit "hello") 700 []
              eq_refl) as (_ & Hquiet & _).
  exact (Hquiet eq_refl).
Defined.

(** C5: settlement of the [speak] promise is idempotent. Once the
    promise is settled, by whichever path came first, every later
    event of the engine and every later timer leaves the settled
    result and its instant unchanged, and no callback throws: neither
    a single further settlement attempt nor any further run of the
    loop changes it. *)
Theorem speak_first_settlement_wins this text t T1 evs1 T2 evs2 :
  let w1 := run_until T1 evs1 (speak this text t) in
  settled (promise w1) = true ->
  (forall ev,
     promise (dispatch ev w1) = promise w1
     /\ settledAt (dispatch ev w1) = settledAt w1
     /\ uncaught (dispatch ev w1) = [])
  /\ (forall tm, In tm (timers w1) ->
     promise (fire tm w1) = promise w1
     /\ settledAt (fire tm w1) = settledAt w1
     /\ uncaught (fire tm w1) = [])
  /\ (let w2 := run_until T2 evs2 w1 in
      promise w2 = promise w1 /\ settledAt w2 = settledAt w1 /\ uncaught w2 = []).
Proof.
  intros w1 Hs.
  pose proof (speak_quiet this text t) as Hq0.
  assert (Hu0 : uncaught (speak this text t) = [])
    by (unfold speak; destruct (synthesis this); reflexivity).
  pose proof (run_until_calm T1 evs1 _ Hq0) as Hc1.
  pose proof (calm_quiet _ _ Hc1 Hq0) as Hq1. fold w1 in Hc1, Hq1.
  assert (Hu1 : uncaught w1 = [])
    by (destruct Hc1 as (_ & _ & _ & _ & _ & Hu); rewrite Hu; exact Hu0).
  split; [|split].
  - intros ev. destruct (dispatch_settled ev w1 Hs) as [Hp Ha].
    destruct (dispatch_calm ev w1 Hq1) as (_ & _ & _ & _ & _ & Hu).
    repeat split; [exact Hp|exact Ha|rewrite Hu; exact Hu1].
  - intros tm Hin. destruct (fire_settled tm w1 Hs) as [Hp Ha].
    assert (Hcb : quiet_cb (callback tm) = true).
    { destruct Hq1 as (_ & _ & _ & _ & Hall). rewrite List.Forall_forall in Hall.
      apply Hall, Hin. }
    destruct (fire_calm tm w1 Hcb) as (_ & _ & _ & _ & _ & Hu).
    repeat split; [exact Hp|exact Ha|rewrite Hu; exact Hu1].
  - intros w2. subst w2. destruct (run_until_settled T2 evs2 w1 Hs) as [Hp Ha].
    destruct (run_until_calm T2 evs2 w1 Hq1) as (_ & _ & _ & _ & _ & Hu).
    repeat split; [exact Hp|exact Ha|rewrite Hu; exact Hu1].
Qed.

Lemma speak_first_settlement_wins_witness :
  promise (run_until 30000 late_end_and_error
             (run_until 10000 [] (speak capable (lit "hello") 0)))
    = Fulfilled VUndefined
  /\ settledAt (run_until 30000 late_end_and_error
                  (run_until 10000 [] (speak capable (lit "hello") 0)))
    = Some 10000
  /\ uncaught (run_until 30000 late_end_and_error
                 (run_until 10000 [] (speak capable (lit "hello") 0)))
    = [].
Proof.
  destruct (speak_first_settlement_wins capable (lit "hello") 0 10000 []
              30000 late_end_and_error eq_refl) as (_ & _ & Hp & Ha & Hu).
  split; [rewrite Hp; reflexivity|].
  split; [rewrite Ha; reflexivity|exact Hu].
Defined.

(** ** Module initialisation *)

Import Init Hosts.

(** C8: when the generative-service key is absent from the
    environment, loading the module logs the error and throws at once.
    The six remote-store values are read from the environment and
    handed to the remote-service client as they are, absent ones
    included: loading the configuration module throws only if the
    client itself throws, and succeeds whenever the client does. *)
Theorem configuration_checked_only_for_api_key h :
  (env h !! "VITE_GEMINI_API_KEY"%string = None ->
     aiService_init h
     = ([console_error [LStr (lit "Gemini API key is not set in environment variables")]],
        Abrupt (Error (lit "Gemini API key is required"))))
  /\ (forall (App Firestore Storage : Type)
            (initializeApp : FirebaseConfig -> Completion App)
            (getFirestore : App -> Completion Firestore)
            (getStorage : App -> Completion Storage),
       firebase_init initializeApp getFirestore getStorage h
       = (app ← initializeApp
                  {| apiKey := env h !! "VITE_FIREBASE_API_KEY"%string;
                     authDomain := env h !! "VITE_FIREBASE_AUTH_DOMAIN"%string;
                     projectId := env h !! "VITE_FIREBASE_PROJECT_ID"%string;
                     storageBucket := env h !! "VITE_FIREBASE_STORAGE_BUCKET"%string;
                     messagingSenderId :=
                       env h !! "VITE_FIREBASE_MESSAGING_SENDER_ID"%string;
                     appId := env h !! "VITE_FIREBASE_APP_ID"%string |};
          db ← getFirestore app;
          storage ← getStorage app;
          mret {| app := app; db := db; storage := storage;
                  usersCollection := lit "users";
                  consultationsCollection := lit "consultations";
                  uploadsCollection := lit "uploads" |})
       /\ (forall e,
             firebase_init initializeApp getFirestore getStorage h = Abrupt e ->
             initializeApp (firebaseConfig h) = Abrupt e
             \/ exists app, initializeApp (firebaseConfig h) = Normal app
                  /\ (getFirestore app = Abrupt e \/ getStorage app = Abrupt e))
       /\ (forall app db storage,
             initializeApp (firebaseConfig h) = Normal app ->
             getFirestore app = Normal db ->
             getStorage app = Normal storage ->
             exists m, firebase_init initializeApp getFirestore getStorage h = Normal m)).
Proof.
  split.
  - intros Hkey. unfold aiService_init. rewrite Hkey. reflexivity.
  - intros App Firestore Storage initializeApp getFirestore getStorage.
    split; [reflexivity|]. unfold firebase_init. split.
    + intros e. destruct (initializeApp (firebaseConfig h)) as [app|e0] eqn:Hinit; cbn.
      * destruct (getFirestore app) as [db|e1] eqn:Hdb; cbn.
        -- destruct (getStorage app) as [st|e2] eqn:Hst; cbn; [discriminate|].
           intros H. injection H as <-. right. exists app. auto.
        -- intros H. injection H as <-. right. exists app. auto.
      * intros H. injection H as <-. left. reflexivity.
    + intros app db storage -> . cbn. intros -> . cbn. intros ->. cbn.
      eexists. reflexivity.
Qed.

Lemma configuration_checked_only_for_api_key_witness :
  snd (aiService_init bare_host) = Abrupt (Error (lit "Gemini API key is required"))
  /\ exists m,
       firebase_init lenient_initializeApp lenient_getFirestore lenient_getStorage bare_host
       = Normal m.
Proof.
  destruct (configuration_checked_only_for_api_key bare_host) as [Hkey Hstore].
  split.
  - rewrite (Hkey eq_refl). reflexivity.
  - destruct (Hstore _ _ _ lenient_initializeApp lenient_getFirestore lenient_getStorage)
      as (_ & _ & Hok).
    exact (Hok _ _ _ eq_refl eq_refl eq_refl).
Defined.

(** The key check treats the empty string like an absent value. *)
Lemma empty_api_key_throws h :
  (env h !! "VITE_GEMINI_API_KEY"%string : option jsstring) = Some [] ->
  snd (aiService_init h) = Abrupt (Error (lit "Gemini API key is required")).
Proof. intros Hkey. unfold aiService_init. rewrite Hkey. reflexivity. Qed.

(** C10, as stated, fails for [speak]: in a browser where [window] is
    defined and has the recognition constructor but no
    [speechSynthesis], the module loads and [speak] takes its
    rejection branch. *)
Lemma speak_rejection_with_window_defined :
  window mute_browser <> None
  /\ exists svc,
       snd (aiService_init mute_browser) = Normal svc
       /\ promise (speak (voiceService svc) (lit "hello") 0)
          = RejectedWith (VString (lit "Speech synthesis not supported")).
Proof.
  split; [discriminate|].
  eexists. split; [vm_compute; reflexivity|]. reflexivity.
Qed.

(** C10 (amended): capability detection happens once, at module load,
    and tests only whether [window] is defined. When it is, the module
    constructs [window.webkitSpeechRecognition] unconditionally, and
    the load throws if that constructor is absent. In a module that
    has loaded, the rejection branch of [startListening] is taken
    exactly when [window] was undefined; the rejection branch of
    [speak] is taken exactly when [window] was undefined or had no
    [speechSynthesis]. *)
Theorem capability_detection_at_load h :
  (forall (k : jsstring) win,
     env h !! "VITE_GEMINI_API_KEY"%string = Some k -> k <> [] ->
     window h = Some win -> webkitSpeechRecognition win = None ->
     snd (aiService_init h)
     = Abrupt (TypeError (lit "window.webkitSpeechRecognition is not a constructor")))
  /\ (forall svc,
        snd (aiService_init h) = Normal svc ->
        (recognition (voiceService svc) = None <-> window h = None)
        /\ (synthesis (voiceService svc)
            = match window h with
              | Some win => speechSynthesis win
              | None => None
              end)
        /\ (forall t,
              promise (startListening (voiceService svc) t)
              = RejectedWith (VString (lit "Speech recognition not supported"))
              <-> window h = None)
        /\ (forall text t,
              promise (speak (voiceService svc) text t)
              = RejectedWith (VString (lit "Speech synthesis not supported"))
              <-> (window h = None
                   \/ exists win, window h = Some win /\ speechSynthesis win = None))).
Proof.
  split.
  - intros k win Hkey Hk Hwin Hctor. unfold aiService_init. rewrite Hkey.
    destruct k as [|c r]; [congruence|].
    rewrite Hwin. unfold new_recognition. rewrite Hctor. reflexivity.
  - intros svc. unfold aiService_init.
    destruct (env h !! "VITE_GEMINI_API_KEY"%string) as [[|c r]|]; cbn;
      try discriminate.
    destruct (window h) as [win|]; cbn.
    + unfold new_recognition. destruct (webkitSpeechRecognition win); cbn;
        [|discriminate].
      intros H. injection H as <-. cbn.
      split; [split; discriminate|].
      split; [reflexivity|].
      split; [intros t; split; discriminate|].
      intros text t. unfold speak. cbn.
      destruct (speechSynthesis win) as [syn|] eqn:Hsyn; cbn.
      * split; [discriminate|]. intros [H|(w' & Hw & Hs)]; [discriminate|].
        injection Hw as <-. congruence.
      * split; [|reflexivity]. intros _. right. exists win. split; [reflexivity|exact Hsyn].
    + intros H. injection H as <-. cbn.
      split; [split; reflexivity|].
      split; [reflexivity|].
      split; [intros t; split; reflexivity|].
      intros text t. split; [intros _; left|]; reflexivity.
Qed.

Lemma capability_detection_at_load_witness :
  snd (aiService_init deaf_browser)
    = Abrupt (TypeError (lit "window.webkitSpeechRecognition is not a constructor"))
  /\ promise (startListening incapable 0)
     = RejectedWith (VString (lit "Speech recognition not supported")).
Proof.
  split.
  - destruct (capability_detection_at_load deaf_browser) as [Hthrow _].
    apply (Hthrow (lit "k-123")
             {| webkitSpeechRecognition := None;
                speechSynthesis := Some SynthesisObject |});
      [vm_compute; reflexivity|discriminate|reflexivity|reflexivity].
  - destruct (capability_detection_at_load keyed_host) as [_ Hloaded].
    assert (Hinit : snd (aiService_init keyed_host)
                    = Normal {| genAI := {| client_apiKey := lit "k-123" |};
                                voiceService := incapable |})
      by (vm_compute; reflexivity).
    destruct (Hloaded _ Hinit) as (_ & _ & Hrec & _).
    apply (Hrec 0). reflexivity.
Defined.

(** C3: in a host that lacks a speech capability the call is to reject
    at once with the fixed string. For recognition the guard in
    [startListening] is written for that, and the synthesis field
    beside it is read without constructing anything; but line 125
    constructs [window.webkitSpeechRecognition] unconditionally. In a
    browser without that constructor the load of the module throws a
    [TypeError], after the key has been logged: no service object
    comes to exist, so no [startListening] call can reject with
    'Speech recognition not supported' there. *)
Theorem missing_recognition_constructor_aborts_load :
  (exists win, window deaf_browser = Some win
               /\ webkitSpeechRecognition win = None)
  /\ aiService_init deaf_browser
     = ([console_log [LStr (lit "API Key loaded:"); LStr (lit "k-123")]],
        Abrupt (TypeError (lit "window.webkitSpeechRecognition is not a constructor")))
  /\ (forall svc, snd (aiService_init deaf_browser) <> Normal svc).
Proof.
  split; [eexists; split; reflexivity|].
  assert (H : aiService_init deaf_browser
     = ([console_log [LStr (lit "API Key loaded:"); LStr (lit "k-123")]],
        Abrupt (TypeError (lit "window.webkitSpeechRecognition is not a constructor"))))
    by (vm_compute; reflexivity).
  split; [exact H|]. intros svc. rewrite H. discriminate.
Qed.

(* ===================================================================== *)
(** * Further properties of the adapters                                  *)
(* ===================================================================== *)

(** ** Trimming *)

Lemma trimStart_decompose (s : jsstring) :
  exists pre, s = pre ++ trimStart s /\ all_white_space pre = true.
Proof.
  induction s as [|c r (pre & Hs & Hpre)]; [exists []; split; reflexivity|].
  cbn. destruct (is_white_space c) eqn:Hc.
  - exists (c :: pre). split; [cbn; f_equal; exact Hs|].
    unfold all_white_space in *. cbn. rewrite Hc, Hpre. reflexivity.
  - exists []. split; reflexivity.
Qed.

Lemma trimStart_head (s : jsstring) c r :
  trimStart s = c :: r -> is_white_space c = false.
Proof.
  induction s as [|a s IH]; cbn; [discriminate|].
  destruct (is_white_space a) eqn:Ha; [exact IH|].
  intros H. injection H as <- _. exact Ha.
Qed.

Lemma trimStart_nil (s : jsstring) :
  trimStart s = [] <-> all_white_space s = true.
Proof.
  unfold all_white_space. induction s as [|a s IH]; cbn; [tauto|].
  destruct (is_white_space a); cbn; [exact IH|].
  split; discriminate.
Qed.

Lemma all_white_space_rev (s : jsstring) :
  all_white_space (rev s) = all_white_space s.
Proof.
  unfold all_white_space.
  destruct (forallb is_white_space s) eqn:H.
  - rewrite forallb_forall in *. intros x Hx. apply H, in_rev, Hx.
  - destruct (forallb is_white_space (rev s)) eqn:H'; [|reflexivity].
    rewrite <- H. symmetry. rewrite forallb_forall in *.
    intros x Hx. apply H'. rewrite <- in_rev. exact Hx.
Qed.

Lemma all_white_space_app (a b : jsstring) :
  all_white_space (a ++ b) = all_white_space a && all_white_space b.
Proof. unfold all_white_space. apply forallb_app. Qed.

Lemma trimEnd_decompose (s : jsstring) :
  exists suf, s = trimEnd s ++ suf /\ all_white_space suf = true.
Proof.
  destruct (trimStart_decompose (rev s)) as (pre & Hs & Hpre).
  exists (rev pre). split.
  - unfold trimEnd. rewrite <- rev_app_distr, <- Hs, rev_involutive. reflexivity.
  - rewrite all_white_space_rev. exact Hpre.
Qed.

Lemma trimEnd_last (s : jsstring) r c :
  trimEnd s = r ++ [c] -> is_white_space c = false.
Proof.
  unfold trimEnd. intros H.
  apply (f_equal (@rev N)) in H. rewrite rev_involutive, rev_app_distr in H.
  cbn in H. exact (trimStart_head _ _ _ H).
Qed.

Lemma trim_decompose (s : jsstring) :
  exists pre suf,
    s = pre ++ trim s ++ suf
    /\ all_white_space pre = true /\ all_white_space suf = true.
Proof.
  destruct (trimStart_decompose s) as (pre & Hs & Hpre).
  destruct (trimEnd_decompose (trimStart s)) as (suf & Hu & Hsuf).
  exists pre, suf. unfold trim. rewrite <- Hu. auto.
Qed.

Lemma trim_head (s : jsstring) c r :
  trim s = c :: r -> is_white_space c = false.
Proof.
  unfold trim. intros H.
  destruct (trimEnd_decompose (trimStart s)) as (suf & Hu & _).
  rewrite H in Hu. cbn in Hu. exact (trimStart_head _ _ _ Hu).
Qed.

Lemma trim_last (s : jsstring) r c :
  trim s = r ++ [c] -> is_white_space c = false.
Proof. unfold trim. apply trimEnd_last. Qed.

Lemma trim_nil (s : jsstring) :
  trim s = [] <-> all_white_space s = true.
Proof.
  split.
  - intros H. destruct (trim_decompose s) as (pre & suf & Hs & Hpre & Hsuf).
    rewrite H in Hs. cbn in Hs. rewrite Hs, all_white_space_app, Hpre, Hsuf.
    reflexivity.
  - intros H. unfold trim. apply trimStart_nil in H. rewrite H. reflexivity.
Qed.

(** ** Chat adapter: the request, the failures, the content *)

(** X1: from its first task on, a [sendMessage] call has sent exactly
    one request, whatever the service answers and however long the
    call then runs (no retry): the fixed model and API version, and as
    prompt the fixed instructions with the caller's message inserted
    verbatim, be it empty or blank. Before the first task nothing is
    sent. *)
Theorem sendMessage_sends_one_request sv genAI message t1 rest :
  requests (fst (call sv (t1 :: rest) (sendMessage genAI message)))
  = [{| req_model := {| model_client := genAI;
                        model_name := lit "gemini-1.5-flash";
                        model_apiVersion := lit "v1" |};
        req_content :=
          Prompt (medicalChatService.prompt_head ++ message
                    ++ medicalChatService.prompt_tail) |}]
  /\ requests (fst (call sv [] (sendMessage genAI message))) = [].
Proof.
  split; [|reflexivity].
  unfold call. destruct rest as [|t2 [|t3 rest]]; cbn.
  - reflexivity.
  - destruct (generateContent sv _) as [[[[txt|e]]]|e]; reflexivity.
  - destruct (generateContent sv _) as [[[[txt|e]]]|e]; cbn;
      [destruct txt as [|c txt']; cbn| |]; rewrite finished_stays; reflexivity.
Qed.

(** X2: every failure inside [sendMessage] leaves through the one
    [catch]: a rejected remote call (already in the call's second
    task), a [text()] that throws, and the adapter's own
    empty-response error all reject with a plain [Error] whose message
    is the fixed prefix followed by the cause's message; the cause's
    own name is not kept. *)
Theorem sendMessage_wraps_every_failure sv genAI message t1 t2 t3 rest :
  (forall e,
     generateContent sv (chat_request genAI message) = Abrupt e ->
     snd (call sv (t1 :: t2 :: rest) (sendMessage genAI message))
     = Finished (Rejected {| err_name := lit "Error";
                             err_message := lit "Failed to get AI response: "
                                              ++ err_message e |}))
  /\ (forall result e,
        generateContent sv (chat_request genAI message) = Normal result ->
        text (response result) = Abrupt e ->
        snd (call sv (t1 :: t2 :: t3 :: rest) (sendMessage genAI message))
        = Finished (Rejected {| err_name := lit "Error";
                                err_message := lit "Failed to get AI response: "
                                                 ++ err_message e |}))
  /\ (forall result,
        generateContent sv (chat_request genAI message) = Normal result ->
        text (response result) = Normal [] ->
        snd (call sv (t1 :: t2 :: t3 :: rest) (sendMessage genAI message))
        = Finished (Rejected {| err_name := lit "Error";
                                err_message :=
                                  lit "Failed to get AI response: Empty response from AI" |})).
Proof.
  split; [|split].
  - intros e He. unfold call. unfold chat_request in He. cbn. rewrite He. cbn.
    rewrite finished_stays. reflexivity.
  - intros result e Hg Ht. rewrite sendMessage_three_tasks.
    unfold sendMessage_outcome. rewrite Hg, Ht. reflexivity.
  - intros result Hg Ht. rewrite sendMessage_three_tasks.
    unfold sendMessage_outcome. rewrite Hg, Ht. reflexivity.
Qed.

Lemma sendMessage_wraps_every_failure_witness :
  snd (call (failing Failed (TypeError (lit "fetch failed"))) [1; 2]
         (sendMessage demo_client (lit "hi")))
    = Finished (Rejected (Error (lit "Failed to get AI response: fetch failed")))
  /\ snd (call (answering []) [1; 2; 3] (sendMessage demo_client (lit "hi")))
    = Finished (Rejected (Error (lit "Failed to get AI response: Empty response from AI"))).
Proof.
  destruct (sendMessage_wraps_every_failure
              (failing Failed (TypeError (lit "fetch failed")))
              demo_client (lit "hi") 1 2 3 []) as (H1 & _ & _).
  destruct (sendMessage_wraps_every_failure
              (answering []) demo_client (lit "hi") 1 2 3 []) as (_ & _ & H3).
  split.
  - exact (H1 _ eq_refl).
  - exact (H3 _ eq_refl eq_refl).
Defined.

(** X3: the content of a resolved message is the response text with
    its leading and trailing white space removed and nothing else
    changed: the text is some white space, then the content, then some
    white space, and the content neither begins nor ends with a
    white-space character. Its role is [assistant]. *)
Theorem sendMessage_content_is_text_without_margins sv genAI message clocks msg :
  snd (call sv clocks (sendMessage genAI message)) = Finished (Resolved msg) ->
  exists result txt pre suf,
    generateContent sv (chat_request genAI message) = Normal result
    /\ text (response result) = Normal txt
    /\ txt = pre ++ content msg ++ suf
    /\ all_white_space pre = true
    /\ all_white_space suf = true
    /\ (forall c r, content msg = c :: r -> is_white_space c = false)
    /\ (forall r c, content msg = r ++ [c] -> is_white_space c = false)
    /\ role msg = assistant.
Proof.
  intros H.
  destruct (sendMessage_resolved_inv _ _ _ _ _ H) as (result & txt & Hg & Ht & _ & _ & E).
  assert (Hc : content msg = trim txt) by (rewrite E; reflexivity).
  assert (Hr : role msg = assistant) by (rewrite E; reflexivity).
  destruct (trim_decompose txt) as (pre & suf & Hs & Hpre & Hsuf).
  exists result, txt, pre, suf. rewrite Hc.
  repeat split; try assumption.
  - intros c r. apply trim_head.
  - intros r c. apply trim_last.
Qed.

Lemma sendMessage_content_is_text_without_margins_witness :
  exists result txt pre suf,
    generateContent (answering (lit "  rest well ")) (chat_request demo_client (lit "hi"))
      = Normal result
    /\ text (response result) = Normal txt
    /\ txt = pre ++ lit "rest well" ++ suf
    /\ all_white_space pre = true
    /\ all_white_space suf = true.
Proof.
  destruct (sendMessage_content_is_text_without_margins
              (answering (lit "  rest well ")) demo_client (lit "hi") [1; 2; 3]
              {| id := lit "3"; role := assistant;
                 content := lit "rest well"; timestamp := 3 |} eq_refl)
    as (result & txt & pre & suf & Hg & Ht & Hs & Hpre & Hsuf & _).
  exists result, txt, pre, suf. repeat split; assumption.
Defined.

(** X4: when the service answers with a non-empty text, [sendMessage]
    resolves, and the content of its message is the empty string
    exactly when that text consists of white space only. *)
Theorem sendMessage_empty_content_iff_blank_text sv genAI message result txt t1 t2 t3 rest :
  generateContent sv (chat_request genAI message) = Normal result ->
  text (response result) = Normal txt ->
  txt <> [] ->
  exists msg,
    snd (call sv (t1 :: t2 :: t3 :: rest) (sendMessage genAI message))
      = Finished (Resolved msg)
    /\ (content msg = [] <-> all_white_space txt = true).
Proof.
  intros Hg Ht Hne. rewrite sendMessage_three_tasks. unfold sendMessage_outcome.
  rewrite Hg, Ht. destruct txt as [|c r]; [congruence|].
  eexists. split; [reflexivity|]. cbn [content]. apply trim_nil.
Qed.

Lemma sendMessage_empty_content_iff_blank_text_witness :
  exists msg,
    snd (call (answering [9; 10; 32; 160]) [1; 2; 3] (sendMessage demo_client (lit "hi")))
      = Finished (Resolved msg)
    /\ content msg = [].
Proof.
  destruct (sendMessage_empty_content_iff_blank_text
              (answering [9; 10; 32; 160]) demo_client (lit "hi") _ _ 1 2 3 []
              eq_refl eq_refl) as (msg & Hm & Hiff); [discriminate|].
  exists msg. split; [exact Hm|]. apply Hiff. reflexivity.
Defined.

(** X5: [sendMessage] writes the caller's message to the console as
    soon as it is entered, whatever happens next, and writes the full
    response text there once the service has returned one. *)
Theorem sendMessage_logs_message_and_response sv genAI message t1 t2 t3 rest :
  (forall more,
     In (EvConsole (console_log [LStr (lit "Starting chat with message:"); LStr message]))
        (fst (call sv (t1 :: more) (sendMessage genAI message))))
  /\ (forall result txt,
        generateContent sv (chat_request genAI message) = Normal result ->
        text (response result) = Normal txt ->
        In (EvConsole (console_log [LStr (lit "Response text:"); LStr txt]))
           (fst (call sv (t1 :: t2 :: t3 :: rest) (sendMessage genAI message)))).
Proof.
  split.
  - intros more. unfold call. cbn [run_tasks resume].
    destruct (sync t1 (sendMessage genAI message)) as [evs th] eqn:Hs.
    cbn in Hs. injection Hs as <- <-.
    destruct (run_tasks sv more _) as [evs' th']. cbn. left. reflexivity.
  - intros result txt Hg Ht. unfold call. unfold chat_request in Hg. cbn.
    rewrite Hg. destruct result as [[tx]]. cbn in Ht. subst tx. cbn.
    destruct txt as [|c r]; cbn; rewrite finished_stays; cbn; tauto.
Qed.

Lemma sendMessage_logs_message_and_response_witness :
  In (EvConsole (console_log [LStr (lit "Response text:"); LStr (lit "rest")]))
     (fst (call (answering (lit "rest")) [1; 2; 3] (sendMessage demo_client (lit "hi")))).
Proof.
  destruct (sendMessage_logs_message_and_response
              (answering (lit "rest")) demo_client (lit "hi") 1 2 3 []) as [_ H].
  exact (H _ _ eq_refl eq_refl).
Defined.

(** ** Image analysis adapter: the result, the edge of the split, no retry *)

(** X6: [analyzeImage] resolves exactly when the read yields a data
    URL, the service answers the request built from it, and the answer
    has a non-empty text; it then resolves with that text as it is,
    white space included. *)
Theorem analyzeImage_resolves_with_raw_text sv genAI file t1 t2 t3 t4 rest txt :
  snd (call sv (t1 :: t2 :: t3 :: t4 :: rest) (analyzeImage genAI file))
    = Finished (Resolved txt)
  <-> exists d result,
        readAsDataURL sv file = Loaded d
        /\ generateContent sv
             {| req_model := getGenerativeModel genAI (lit "gemini-1.5-flash") (lit "v1");
                req_content :=
                  Parts [PText medicalAnalysisService.prompt;
                         PInline {| data := split comma d !! 1%nat;
                                    mimeType := file_type file |}] |}
           = Normal result
        /\ text (response result) = Normal txt
        /\ txt <> [].
Proof.
  rewrite analyzeImage_four_tasks. unfold analyzeImage_outcome, analysis_request.
  split.
  - destruct (readAsDataURL sv file) as [d|]; [|discriminate].
    destruct (generateContent sv _) as [[[[[|c r]|e]]]|e] eqn:Hg; try discriminate.
    intros H. injection H as <-.
    exists d, {| response := {| text := Normal (c :: r) |} |}.
    repeat split; [exact Hg|discriminate].
  - intros (d & result & -> & -> & Ht & Hne). rewrite Ht.
    destruct txt as [|c r]; [congruence|reflexivity].
Qed.

Lemma analyzeImage_resolves_with_raw_text_witness :
  snd (call (reading (Loaded (lit "data:image/png;base64,QUJD")) (lit " ")) [1; 2; 3; 4]
         (analyzeImage demo_client demo_file))
  = Finished (Resolved (lit " ")).
Proof.
  apply (analyzeImage_resolves_with_raw_text
           (reading (Loaded (lit "data:image/png;base64,QUJD")) (lit " "))
           demo_client demo_file 1 2 3 4 [] (lit " ")).
  exists (lit "data:image/png;base64,QUJD"),
         {| response := {| text := Normal (lit " ") |} |}.
  repeat split. discriminate.
Defined.

(** X7: when the string the read yields holds no comma, [split]
    returns a single piece, index 1 is [undefined], and the request is
    sent all the same, with [undefined] as the inline data. *)
Theorem analyzeImage_without_comma_sends_undefined sv genAI file d t1 t2 t3 t4 rest :
  readAsDataURL sv file = Loaded d ->
  ~ In comma d ->
  requests (fst (call sv (t1 :: t2 :: t3 :: t4 :: rest) (analyzeImage genAI file)))
  = [{| req_model := getGenerativeModel genAI (lit "gemini-1.5-flash") (lit "v1");
        req_content :=
          Parts [PText medicalAnalysisService.prompt;
                 PInline {| data := None; mimeType := file_type file |}] |}].
Proof.
  intros Hread Hno. rewrite analyzeImage_requests, Hread.
  rewrite (split_no_sep _ _ Hno). reflexivity.
Qed.

Lemma analyzeImage_without_comma_sends_undefined_witness :
  requests (fst (call (reading (Loaded []) (lit "ok")) [1; 2; 3; 4]
                   (analyzeImage demo_client demo_file)))
  = [analysis_request demo_client demo_file None].
Proof.
  apply (analyzeImage_without_comma_sends_undefined
           (reading (Loaded []) (lit "ok")) demo_client demo_file [] 1 2 3 4 []).
  - reflexivity.
  - intros H. exact H.
Defined.

(** X8: however many tasks an [analyzeImage] call is given and
    whatever the host answers, it starts the read of its file once and
    sends at most one request: nothing is retried. *)
Theorem analyzeImage_never_retries sv genAI file clocks :
  (length (requests (fst (call sv clocks (analyzeImage genAI file)))) <= 1)%nat
  /\ (forall t1 rest, clocks = t1 :: rest ->
        reads (fst (call sv clocks (analyzeImage genAI file))) = [file]).
Proof.
  unfold call.
  destruct clocks as [|t1 [|t2 [|t3 [|t4 rest]]]]; cbn; unfold file_read_promise.
  - split; [lia|]. intros ? ? H. discriminate H.
  - split; [cbn; lia|]. intros ? ? _. reflexivity.
  - destruct (readAsDataURL sv file) as [d|]; cbn; split;
      first [cbn; lia|intros ? ? _; reflexivity].
  - destruct (readAsDataURL sv file) as [d|]; cbn;
      [destruct (generateContent sv _) as [[[[txt|e]]]|e]; cbn|];
      split; first [cbn; lia|intros ? ? _; reflexivity].
  - destruct (readAsDataURL sv file) as [d|]; cbn;
      [destruct (generateContent sv _) as [[[[txt|e]]]|e]; cbn;
       [destruct txt as [|c txt']; cbn| |]|];
      rewrite finished_stays; cbn;
      split; first [cbn; lia|intros ? ? _; reflexivity].
Qed.

Lemma analyzeImage_never_retries_witness :
  reads (fst (call (reading Failed (lit "ok")) [1; 2; 3; 4; 5; 6]
                (analyzeImage demo_client demo_file))) = [demo_file].
Proof.
  destruct (analyzeImage_never_retries (reading Failed (lit "ok")) demo_client demo_file
              [1; 2; 3; 4; 5; 6]) as [_ H].
  exact (H 1 [2; 3; 4; 5; 6] eq_refl).
Defined.

(** X9: with another [analyzeImage] call in flight on the same loop,
    under any schedule that gives a call its four tasks, the call
    settles as it does when run alone: the outcome depends neither on
    the other call's file and answers nor on the clock. *)
Theorem concurrent_analyzeImage_independent svL svR genAI fL fR t0 s t1 t2 t3 t4 :
  (4 <= length (clocks_of L t0 s))%nat ->
  left (run2 svL svR t0 (analyzeImage genAI fL) (analyzeImage genAI fR) s)
  = snd (call svL [t1; t2; t3; t4] (analyzeImage genAI fL)).
Proof.
  intros Hlen. rewrite run2_left.
  destruct (clocks_of L t0 s) as [|a [|b [|c [|d rest]]]]; cbn in Hlen; try lia.
  rewrite !analyzeImage_four_tasks. reflexivity.
Qed.

Lemma concurrent_analyzeImage_independent_witness :
  left (run2 (reading (Loaded (lit "data:image/png;base64,QUJD")) (lit "clear"))
             (reading Failed (lit "other")) 100
             (analyzeImage demo_client demo_file) (analyzeImage demo_client odd_file)
             interleaved)
  = Finished (Resolved (lit "clear")).
Proof.
  rewrite (concurrent_analyzeImage_independent _ _ _ _ _ _ _ 0 0 0 0);
    [reflexivity|cbn; lia].
Defined.

(** ** Voice adapter: listening *)

Import ListenFacts.

Lemma advance_no_timers t w :
  timers w = [] -> advance t w = with_time (N.max (time w) t) w.
Proof. intros H. unfold advance. rewrite H. reflexivity. Qed.

Lemma startListening_listening this rec t :
  recognition this = Some rec ->
  listening (startListening this t) /\ time (startListening this t) = t.
Proof.
  intros H. unfold startListening. rewrite H. unfold listening. cbn.
  repeat split.
Qed.

Lemma listening_with_time t w : listening w -> listening (with_time t w).
Proof. intros H. exact H. Qed.

Lemma listening_run T evs w :
  listening w -> recognizer_silent evs = true -> listening (run_until T evs w).
Proof.
  revert w. induction evs as [|[d ev] rest IH]; intros w Hw Hq; cbn [run_until].
  - rewrite advance_no_timers by apply Hw. apply listening_with_time, Hw.
  - cbn in Hq. apply andb_prop in Hq as [Hev Hrest].
    rewrite !advance_no_timers by apply Hw.
    destruct (T <? time w + d); [apply listening_with_time, Hw|].
    apply IH; [|exact Hrest].
    destruct Hw as (H1 & H2 & H3 & H4 & H5 & H6 & H7 & H8 & H9).
    destruct ev; try discriminate Hev; unfold dispatch;
      cbn [event_slot with_time utt_onend utt_onerror].
    + rewrite H6. repeat split; assumption.
    + rewrite H7. repeat split; assumption.
Qed.

Lemma same_devices_trans w1 w2 w3 :
  same_devices w1 w2 -> same_devices w2 w3 -> same_devices w1 w3.
Proof. intros [H1 H2] [H3 H4]. split; congruence. Qed.

Lemma exec_stmt_devices arg s w w' :
  exec_stmt arg s w = Normal w' -> same_devices w w'.
Proof.
  destruct s; cbn; intros H; try (injection H as <-; split; reflexivity).
  revert H. destruct (first_transcript arg); [|discriminate].
  intros H. injection H as <-. split; reflexivity.
Qed.

Lemma run_callback_devices arg cb w : same_devices w (run_callback arg cb w).
Proof.
  revert w. induction cb as [|s rest IH]; intros w; cbn; [split; reflexivity|].
  destruct (exec_stmt arg s w) as [w'|e] eqn:He; [|split; reflexivity].
  exact (same_devices_trans _ _ _ (exec_stmt_devices _ _ _ _ He) (IH w')).
Qed.

Lemma dispatch_devices ev w : same_devices w (dispatch ev w).
Proof.
  unfold dispatch. destruct (event_slot ev w);
    [apply run_callback_devices|split; reflexivity].
Qed.

Lemma fire_devices tm w : same_devices w (fire tm w).
Proof.
  unfold fire.
  apply (same_devices_trans _
           (with_time (N.max (time w) (deadline tm)) (clearTimeout (timer_id tm) w)));
    [split; reflexivity|apply run_callback_devices].
Qed.

Lemma fire_due_devices fuel t w : same_devices w (fire_due fuel t w).
Proof.
  revert w. induction fuel as [|n IH]; intros w; cbn; [split; reflexivity|].
  destruct (earliest (timers w)) as [tm|]; [|split; reflexivity].
  destruct (deadline tm <=? t); [|split; reflexivity].
  exact (same_devices_trans _ _ _ (fire_devices tm w) (IH _)).
Qed.

Lemma advance_devices t w : same_devices w (advance t w).
Proof.
  unfold advance.
  apply (same_devices_trans _ (fire_due (length (timers w)) t w));
    [apply fire_due_devices|split; reflexivity].
Qed.

Lemma run_until_devices T evs w : same_devices w (run_until T evs w).
Proof.
  revert w. induction evs as [|[d ev] rest IH]; intros w; cbn [run_until].
  - apply advance_devices.
  - destruct (T <? time w + d); [apply advance_devices|].
    apply (same_devices_trans _ _ _ (advance_devices (time w + d) w)).
    apply (same_devices_trans _ _ _ (dispatch_devices ev _)). apply IH.
Qed.

(** X10: with the recognition capability present, the first result
    the recognizer delivers resolves [startListening] with the
    transcript of the first alternative of the first result, at the
    instant it is delivered; the other alternatives and results, and
    everything the recognizer fires afterwards, change nothing. *)
Theorem startListening_resolves_with_first_transcript
    this rec t d tr alts more rest T :
  recognition this = Some rec ->
  t + d <= T ->
  let w := run_until T ((d, RecognitionResult ((tr :: alts) :: more)) :: rest)
                     (startListening this t) in
  promise w = Fulfilled (VString tr) /\ settledAt w = Some (t + d).
Proof.
  intros Hrec HT w. subst w.
  destruct (startListening_listening this rec t Hrec) as [Hl Htime].
  cbn [run_until]. rewrite Htime.
  destruct (N.ltb_spec T (t + d)) as [Hlt|_]; [lia|].
  rewrite advance_no_timers by apply Hl. rewrite Htime.
  set (w1 := dispatch _ _).
  assert (H1 : promise w1 = Fulfilled (VString tr) /\ settledAt w1 = Some (t + d)).
  { subst w1. destruct Hl as (Hp & Ha & _ & Hres & _).
    unfold dispatch. cbn [event_slot with_time rec_onresult]. rewrite Hres.
    cbn. rewrite Hp. cbn. split; [reflexivity|f_equal; lia]. }
  destruct H1 as [Hp1 Ha1].
  assert (Hs : settled (promise w1) = true) by (rewrite Hp1; reflexivity).
  destruct (run_until_settled T rest w1 Hs) as [Hp Ha].
  rewrite Hp, Ha. split; assumption.
Qed.

Lemma startListening_resolves_with_first_transcript_witness :
  promise (run_until 5000
             [(1200, RecognitionResult [[lit "headache"; lit "head ache"]; [lit "since"]]);
              (300, RecognitionError (lit "no-speech"))]
             (startListening capable 100))
  = Fulfilled (VString (lit "headache")).
Proof.
  destruct (startListening_resolves_with_first_transcript
              capable RecognitionObject 100 1200 (lit "headache") [lit "head ache"]
              [[lit "since"]] [(300, RecognitionError (lit "no-speech"))] 5000
              eq_refl) as [Hp _]; [lia|exact Hp].
Defined.

(** X11: a recognition error that comes first rejects
    [startListening] with the event's [error] code, a string, and
    later events change nothing. *)
Theorem startListening_rejects_with_error_code this rec t d code rest T :
  recognition this = Some rec ->
  t + d <= T ->
  let w := run_until T ((d, RecognitionError code) :: rest) (startListening this t) in
  promise w = RejectedWith (VString code) /\ settledAt w = Some (t + d).
Proof.
  intros Hrec HT w. subst w.
  destruct (startListening_listening this rec t Hrec) as [Hl Htime].
  cbn [run_until]. rewrite Htime.
  destruct (N.ltb_spec T (t + d)) as [Hlt|_]; [lia|].
  rewrite advance_no_timers by apply Hl. rewrite Htime.
  set (w1 := dispatch _ _).
  assert (H1 : promise w1 = RejectedWith (VString code) /\ settledAt w1 = Some (t + d)).
  { subst w1. destruct Hl as (Hp & Ha & _ & _ & Herr & _).
    unfold dispatch. cbn [event_slot with_time rec_onerror]. rewrite Herr.
    cbn. rewrite Hp. cbn. split; [reflexivity|f_equal; lia]. }
  destruct H1 as [Hp1 Ha1].
  assert (Hs : settled (promise w1) = true) by (rewrite Hp1; reflexivity).
  destruct (run_until_settled T rest w1 Hs) as [Hp Ha].
  rewrite Hp, Ha. split; assumption.
Qed.

Lemma startListening_rejects_with_error_code_witness :
  promise (run_until 5000
             [(800, RecognitionError (lit "not-allowed"));
              (10, RecognitionResult [[lit "late"]])]
             (startListening capable 100))
  = RejectedWith (VString (lit "not-allowed")).
Proof.
  destruct (startListening_rejects_with_error_code
              capable RecognitionObject 100 800 (lit "not-allowed")
              [(10, RecognitionResult [[lit "late"]])] 5000 eq_refl) as [Hp _];
    [lia|exact Hp].
Defined.

(** X12: [startListening] has no timeout of its own. As long as the
    recognizer delivers neither a result nor an error the promise is
    pending at every instant, however late, no timer is armed, and the
    one session started by the call is the only one. *)
Theorem startListening_pending_without_recognizer_event this rec t evs T :
  recognition this = Some rec ->
  recognizer_silent evs = true ->
  let w := run_until T evs (startListening this t) in
  promise w = Pending /\ timers w = [] /\ sessions w = 1%nat.
Proof.
  intros Hrec Hq w. subst w.
  destruct (startListening_listening this rec t Hrec) as [Hl _].
  destruct (listening_run T evs _ Hl Hq) as (Hp & _ & Ht & _ & _ & _ & _ & Hs & _).
  auto.
Qed.

Lemma startListening_pending_without_recognizer_event_witness :
  promise (run_until 86400000 [(20000, UtteranceEnd)] (startListening capable 0))
  = Pending.
Proof.
  destruct (startListening_pending_without_recognizer_event
              capable RecognitionObject 0 [(20000, UtteranceEnd)] 86400000
              eq_refl eq_refl) as [Hp _].
  exact Hp.
Defined.

(** X13: a result event whose result list is empty, or whose first
    result has no alternative, makes the result callback throw a
    [TypeError] ([0] read off [undefined] in the first case,
    [transcript] in the second): the error is left uncaught, the
    promise stays pending, and, the callbacks still being installed,
    the next well-formed result resolves it. *)
Theorem startListening_survives_result_without_transcript
    this rec t d1 d2 r0 tr alts more T :
  recognition this = Some rec ->
  no_transcript r0 = true ->
  t + d1 + d2 <= T ->
  (let w := run_until (t + d1) [(d1, RecognitionResult r0)] (startListening this t) in
   promise w = Pending
   /\ uncaught w
      = [TypeError (undefined_member_message
                      (match r0 with [] => lit "0" | _ :: _ => lit "transcript" end))])
  /\ (let w := run_until T [(d1, RecognitionResult r0);
                            (d2, RecognitionResult ((tr :: alts) :: more))]
                          (startListening this t) in
      promise w = Fulfilled (VString tr) /\ settledAt w = Some (t + d1 + d2)).
Proof.
  intros Hrec Hr0 HT.
  unfold startListening. rewrite Hrec.
  destruct r0 as [|[|x xs] rs]; [| |discriminate Hr0]; split.
  all: cbn.
  all: try (destruct (N.ltb_spec (t + d1) (t + d1)) as [Hlt|_]; [lia|];
            cbn; split; reflexivity).
  all: destruct (N.ltb_spec T (t + d1)) as [Hlt|_]; [lia|]; cbn;
       replace (N.max t (t + d1)) with (t + d1) by lia;
       destruct (N.ltb_spec T (t + d1 + d2)) as [Hlt|_]; [lia|];
       cbn; split; [reflexivity|f_equal; lia].
Qed.

Lemma startListening_survives_result_without_transcript_witness :
  promise (run_until 9000 [(500, RecognitionResult []);
                           (700, RecognitionResult [[lit "fever"]])]
             (startListening capable 0))
  = Fulfilled (VString (lit "fever")).
Proof.
  destruct (startListening_survives_result_without_transcript
              capable RecognitionObject 0 500 700 [] (lit "fever") [] [] 9000
              eq_refl eq_refl) as [_ [Hp _]]; [lia|exact Hp].
Defined.

(** ** Voice adapter: speaking *)

Lemma finished_is_not_fallback : lit "Speech finished" <> lit "Speech timeout fallback".
Proof. intros H. apply lit_inj in H. discriminate H. Qed.

Lemma error_is_not_fallback : lit "Speech error:" <> lit "Speech timeout fallback".
Proof. intros H. apply lit_inj in H. discriminate H. Qed.

Lemma disarmed_with_time t w : disarmed w -> disarmed (with_time t w).
Proof. intros H. exact H. Qed.

Lemma disarmed_advance t w : disarmed w -> disarmed (advance t w).
Proof.
  intros H. rewrite advance_no_timers by apply H. apply disarmed_with_time, H.
Qed.

Lemma disarmed_dispatch ev w : disarmed w -> disarmed (dispatch ev w).
Proof.
  intros (Ht & H1 & H2 & H3 & H4 & Hc).
  unfold dispatch. destruct ev as [r|c| |c]; cbn [event_slot].
  - rewrite H1. repeat split; assumption.
  - rewrite H2. repeat split; assumption.
  - rewrite H3. cbn. unfold disarmed, never_fell_back. cbn. rewrite Ht. cbn.
    repeat split; try assumption.
    apply Forall_app. split; [exact Hc|].
    constructor; [exact finished_is_not_fallback|constructor].
  - rewrite H4. cbn. unfold disarmed, never_fell_back. cbn.
    repeat split; try assumption.
    apply Forall_app. split; [exact Hc|].
    constructor; [exact error_is_not_fallback|constructor].
Qed.

Lemma disarmed_run T evs w : disarmed w -> disarmed (run_until T evs w).
Proof.
  revert w. induction evs as [|[d ev] rest IH]; intros w H; cbn [run_until].
  - apply disarmed_advance, H.
  - destruct (T <? time w + d); [apply disarmed_advance, H|].
    apply IH, disarmed_dispatch, disarmed_advance, H.
Qed.

(** X14: when the utterance ends before the ten seconds are over, its
    callback cancels the fallback timer for good: from then on no
    timer is armed and, whatever the engine fires later, the fallback
    never runs, so its line never reaches the console. *)
Theorem speak_end_cancels_fallback this syn text t d rest T :
  synthesis this = Some syn ->
  d < 10000 ->
  t + d <= T ->
  let w := run_until T ((d, UtteranceEnd) :: rest) (speak this text t) in
  timers w = []
  /\ Forall (fun l => line_msg l <> lit "Speech timeout fallback") (console w).
Proof.
  intros Hsyn Hd HT w. subst w.
  assert (Hdis : disarmed (run_until T ((d, UtteranceEnd) :: rest) (speak this text t))).
  { unfold speak. rewrite Hsyn. cbn.
    destruct (N.ltb_spec T (t + d)) as [Hlt|_]; [lia|].
    unfold advance. cbn.
    destruct (N.leb_spec (t + timeout_ms) (t + d)) as [Hle|_];
      [unfold timeout_ms in Hle; lia|].
    apply disarmed_run. unfold dispatch. cbn.
    unfold disarmed, never_fell_back. cbn. repeat split.
    constructor; [exact finished_is_not_fallback|constructor]. }
  destruct Hdis as (Ht & _ & _ & _ & _ & Hc). split; assumption.
Qed.

Lemma speak_end_cancels_fallback_witness :
  timers (run_until 60000 [(3000, UtteranceEnd); (100, UtteranceError (lit "x"))]
            (speak capable (lit "hello") 0)) = [].
Proof.
  destruct (speak_end_cancels_fallback capable SynthesisObject (lit "hello") 0 3000
              [(100, UtteranceError (lit "x"))] 60000 eq_refl) as [Ht _];
    [lia|lia|exact Ht].
Defined.

(** X15: the error callback of [speak] rejects the promise but does
    not cancel the fallback timer. After an error before the deadline
    the timer is still armed; at the deadline it fires, writes its
    line to the console, and its [resolve] is a no-op: the promise
    stays rejected with the error event. *)
Theorem speak_error_leaves_fallback_armed this syn text t d code T :
  synthesis this = Some syn ->
  d < 10000 ->
  (timers (run_until (t + d) [(d, UtteranceError code)] (speak this text t))
   = [{| timer_id := 0; deadline := t + 10000;
         callback := [SLog (lit "Speech timeout fallback"); SResolve] |}])
  /\ (t + 10000 <= T ->
      let w := run_until T [(d, UtteranceError code)] (speak this text t) in
      promise w = RejectedWith (VEvent [] (Some code))
      /\ settledAt w = Some (t + d)
      /\ timers w = []
      /\ In {| line_level := LvlLog; line_msg := lit "Speech timeout fallback";
               line_arg := None |} (console w)).
Proof.
  intros Hsyn Hd. unfold speak. rewrite Hsyn. split.
  - cbn. destruct (N.ltb_spec (t + d) (t + d)) as [Hlt|_]; [lia|].
    unfold advance. cbn.
    destruct (N.leb_spec (t + timeout_ms) (t + d)) as [Hle|_];
      [unfold timeout_ms in Hle; lia|].
    unfold dispatch. cbn.
    destruct (N.leb_spec (t + timeout_ms) (t + d)) as [Hle|_];
      [unfold timeout_ms in Hle; lia|].
    reflexivity.
  - intros HT. cbn.
    destruct (N.ltb_spec T (t + d)) as [Hlt|_]; [lia|].
    unfold advance. cbn.
    destruct (N.leb_spec (t + timeout_ms) (t + d)) as [Hle|_];
      [unfold timeout_ms in Hle; lia|].
    unfold dispatch. cbn.
    destruct (N.leb_spec (t + timeout_ms) T) as [_|Hgt];
      [|unfold timeout_ms in Hgt; lia].
    cbn. repeat split; [f_equal; lia|]. right. left. reflexivity.
Qed.

Lemma speak_error_leaves_fallback_armed_witness :
  promise (run_until 10000 [(2500, UtteranceError (lit "audio-busy"))]
             (speak capable (lit "hello") 0))
  = RejectedWith (VEvent [] (Some (lit "audio-busy"))).
Proof.
  destruct (speak_error_leaves_fallback_armed capable SynthesisObject (lit "hello")
              0 2500 (lit "audio-busy") 10000 eq_refl) as [_ H]; [lia|].
  destruct H as [Hp _]; [lia|exact Hp].
Defined.

(** X16: a voice call uses its device once and only its own device.
    However the loop runs afterwards, [speak] has queued its text as
    one utterance (none where synthesis is missing) and started no
    recognition session; [startListening] has started one session
    (none where recognition is missing) and queued no utterance.
    Nothing is restarted or queued again by a callback. *)
Theorem voice_calls_use_their_device_once this text t T evs :
  spoken (run_until T evs (speak this text t))
    = match synthesis this with Some _ => [text] | None => [] end
  /\ sessions (run_until T evs (speak this text t)) = 0%nat
  /\ sessions (run_until T evs (startListening this t))
    = match recognition this with Some _ => 1%nat | None => 0%nat end
  /\ spoken (run_until T evs (startListening this t)) = [].
Proof.
  destruct (run_until_devices T evs (speak this text t)) as [Hs1 Hn1].
  destruct (run_until_devices T evs (startListening this t)) as [Hs2 Hn2].
  rewrite Hs1, Hn1, Hs2, Hn2. unfold speak, startListening.
  destruct (synthesis this), (recognition this); repeat split.
Qed.

(** ** Module load *)

Import Stores.

(** X17: the module [aiService.ts] loads exactly in the hosts that set
    a non-empty generative-service key and either have no [window] or
    have the recognition constructor on it; the client of a loaded
    module carries the key of the environment, unchanged. *)
Theorem aiService_loads_iff h :
  ((exists svc, snd (aiService_init h) = Normal svc)
   <-> ((exists k : jsstring, env h !! "VITE_GEMINI_API_KEY"%string = Some k /\ k <> [])
        /\ (forall win, window h = Some win -> webkitSpeechRecognition win <> None)))
  /\ (forall svc,
        snd (aiService_init h) = Normal svc ->
        env h !! "VITE_GEMINI_API_KEY"%string = Some (client_apiKey (genAI svc))).
Proof.
  unfold aiService_init.
  destruct (env h !! "VITE_GEMINI_API_KEY"%string) as [[|c r]|] eqn:Hkey; cbn.
  - split; [split|intros svc H; discriminate H].
    + intros [svc H]. discriminate H.
    + intros [(k & Hk & Hne) _]. congruence.
  - destruct (window h) as [win|]; cbn.
    + unfold new_recognition.
      destruct (webkitSpeechRecognition win) as [ctor|] eqn:Hctor; cbn.
      * split; [split|intros svc H; injection H as <-; reflexivity].
        -- intros _. split; [exists (c :: r); split; [reflexivity|discriminate]|].
           intros w' Hw. injection Hw as <-. congruence.
        -- intros _. eexists. reflexivity.
      * split; [split|intros svc H; discriminate H].
        -- intros [svc H]. discriminate H.
        -- intros [_ Hw]. exfalso. exact (Hw win eq_refl Hctor).
    + split; [split|intros svc H; injection H as <-; reflexivity].
      * intros _. split; [exists (c :: r); split; [reflexivity|discriminate]|].
        intros w' Hw. discriminate Hw.
      * intros _. eexists. reflexivity.
  - split; [split|intros svc H; discriminate H].
    + intros [svc H]. discriminate H.
    + intros [(k & Hk & _) _]. discriminate Hk.
Qed.

Lemma aiService_loads_iff_witness :
  exists svc, snd (aiService_init mute_browser) = Normal svc.
Proof.
  destruct (aiService_loads_iff mute_browser) as [[_ Hload] _].
  apply Hload. split.
  - exists (lit "k-123"). split; [vm_compute; reflexivity|discriminate].
  - intros win Hw. injection Hw as <-. discriminate.
Defined.

(** X18: whenever the generative-service key is set, loading the
    module writes the key itself to the console, in clear, as its one
    console line, also when the load then throws for the missing
    recognition constructor. *)
Theorem aiService_load_logs_api_key h (k : jsstring) :
  env h !! "VITE_GEMINI_API_KEY"%string = Some k ->
  k <> [] ->
  fst (aiService_init h) = [console_log [LStr (lit "API Key loaded:"); LStr k]].
Proof.
  intros Hkey Hne. unfold aiService_init. rewrite Hkey.
  destruct k as [|c r]; [congruence|reflexivity].
Qed.

Lemma aiService_load_logs_api_key_witness :
  fst (aiService_init deaf_browser)
  = [console_log [LStr (lit "API Key loaded:"); LStr (lit "k-123")]]
  /\ exists e, snd (aiService_init deaf_browser) = Abrupt e.
Proof.
  split.
  - apply (aiService_load_logs_api_key deaf_browser (lit "k-123"));
      [vm_compute; reflexivity|discriminate].
  - eexists. vm_compute. reflexivity.
Defined.

(** X19: the remote-store configuration is a function of the six
    store variables alone: two hosts that agree on them get the same
    configuration, whatever their other variables (the
    generative-service key among them) and their [window]. *)
Theorem firebaseConfig_reads_six_variables h h' :
  (forall k, In k store_variables -> env h !! k = env h' !! k) ->
  firebaseConfig h = firebaseConfig h'.
Proof.
  intros H. unfold firebaseConfig.
  rewrite (H "VITE_FIREBASE_API_KEY"%string) by (cbn; tauto).
  rewrite (H "VITE_FIREBASE_AUTH_DOMAIN"%string) by (cbn; tauto).
  rewrite (H "VITE_FIREBASE_PROJECT_ID"%string) by (cbn; tauto).
  rewrite (H "VITE_FIREBASE_STORAGE_BUCKET"%string) by (cbn; tauto).
  rewrite (H "VITE_FIREBASE_MESSAGING_SENDER_ID"%string) by (cbn; tauto).
  rewrite (H "VITE_FIREBASE_APP_ID"%string) by (cbn; tauto).
  reflexivity.
Qed.

Lemma firebaseConfig_reads_six_variables_witness :
  firebaseConfig stored_host = firebaseConfig stored_browser.
Proof.
  apply firebaseConfig_reads_six_variables.
  intros k Hin. symmetry. unfold stored_browser. cbn [env].
  apply lookup_insert_ne. intros <-.
  cbn in Hin. repeat (destruct Hin as [Hin|Hin]; [discriminate Hin|]). exact Hin.
Defined.

(** ** Overlapping [startListening] calls *)

Lemma orphaned_step this n s st :
  SharedRecognition.orphaned n s ->
  SharedRecognition.orphaned n (SharedRecognition.step this s st).
Proof.
  intros (Hp & Hr & He).
  assert (Hlt : (n < length (SharedRecognition.calls s))%nat)
    by (apply lookup_lt_is_Some; eauto).
  destruct st as [start|ev]; cbn.
  - unfold SharedRecognition.startListening.
    destruct (recognition this); unfold SharedRecognition.orphaned; cbn.
    + repeat split.
      * rewrite lookup_app_l by exact Hlt. exact Hp.
      * intros H. injection H as H. lia.
      * intros H. injection H as H. lia.
    + repeat split; [|exact Hr|exact He].
      rewrite lookup_app_l by exact Hlt. exact Hp.
  - unfold SharedRecognition.deliver.
    destruct ev as [r|c| |c]; try (repeat split; assumption).
    + destruct (SharedRecognition.onresult_of s) as [m|] eqn:Hm;
        [|repeat split; first [assumption|congruence]].
      destruct (first_transcript (VEvent r None));
        [|repeat split; first [assumption|congruence]].
      unfold SharedRecognition.orphaned, SharedRecognition.settle_call. cbn.
      repeat split; [|congruence|congruence].
      rewrite list_lookup_alter_ne by congruence. exact Hp.
    + destruct (SharedRecognition.onerror_of s) as [m|] eqn:Hm;
        [|repeat split; first [assumption|congruence]].
      unfold SharedRecognition.orphaned, SharedRecognition.settle_call. cbn.
      repeat split; [|congruence|congruence].
      rewrite list_lookup_alter_ne by congruence. exact Hp.
Qed.

Lemma orphaned_run this n sts s :
  SharedRecognition.orphaned n s ->
  SharedRecognition.orphaned n (SharedRecognition.run this sts s).
Proof.
  unfold SharedRecognition.run. revert s.
  induction sts as [|st rest IH]; intros s H; cbn; [exact H|].
  apply IH, orphaned_step, H.
Qed.

(** X21: the callbacks of [startListening] live on the one shared
    recognition object, so a call made while an earlier call is still
    pending takes the earlier call's callbacks away. Whether or not
    the second [start()] throws, and whatever is called or fired
    afterwards, the earlier promise never settles. *)
Theorem overlapping_startListening_orphans_first this rec s0 start2 sts :
  recognition this = Some rec ->
  let n := length (SharedRecognition.calls s0) in
  let s := SharedRecognition.run this sts
             (SharedRecognition.startListening this start2
                (SharedRecognition.startListening this (Normal tt) s0)) in
  SharedRecognition.calls s !! n = Some Pending.
Proof.
  intros Hrec n s. subst s.
  apply orphaned_run.
  unfold SharedRecognition.startListening. rewrite Hrec.
  unfold SharedRecognition.orphaned. cbn. subst n.
  rewrite length_app. cbn. repeat split.
  - rewrite lookup_app_l by (rewrite length_app; cbn; lia).
    rewrite lookup_app_r by lia. rewrite Nat.sub_diag. reflexivity.
  - intros H. injection H as H. lia.
  - intros H. injection H as H. lia.
Qed.

Lemma overlapping_startListening_orphans_first_witness :
  SharedRecognition.calls
    (SharedRecognition.run capable
       [SharedRecognition.Fires (RecognitionResult [[lit "fever"]]);
        SharedRecognition.Fires (RecognitionError (lit "aborted"))]
       (SharedRecognition.startListening capable (Normal tt)
          (SharedRecognition.startListening capable (Normal tt) SharedRecognition.idle)))
    !! 0%nat
  = Some Pending.
Proof.
  exact (overlapping_startListening_orphans_first capable RecognitionObject
           SharedRecognition.idle (Normal tt)
           [SharedRecognition.Fires (RecognitionResult [[lit "fever"]]);
            SharedRecognition.Fires (RecognitionError (lit "aborted"))]
           eq_refl).
Defined.

(** X22: a result delivered right after a call never touches the
    promises of the calls made before: whatever became of them, they
    are left as they were. If the call's [start()] returned, the
    result resolves the call's own promise with the top transcript of
    the first result; if [start()] threw (a session was still
    active), the call's promise is already rejected with the thrown
    error and the result changes nothing. *)
Theorem startListening_result_leaves_earlier_calls this rec s0 start tr alts more :
  recognition this = Some rec ->
  SharedRecognition.calls
    (SharedRecognition.deliver (RecognitionResult ((tr :: alts) :: more))
       (SharedRecognition.startListening this start s0))
  = SharedRecognition.calls s0
      ++ [match start with
          | Normal _ => Fulfilled (VString tr)
          | Abrupt e => RejectedWith (inr e)
          end].
Proof.
  intros Hrec. unfold SharedRecognition.startListening. rewrite Hrec.
  unfold SharedRecognition.deliver. cbn.
  rewrite <- (Nat.add_0_r (length (SharedRecognition.calls s0))).
  rewrite alter_app_r. destruct start; reflexivity.
Qed.

Lemma startListening_result_leaves_earlier_calls_witness :
  SharedRecognition.calls
    (SharedRecognition.run capable
       [SharedRecognition.Call (Normal tt);
        SharedRecognition.Call (Abrupt already_started);
        SharedRecognition.Fires (RecognitionResult [[lit "fever"]])]
       SharedRecognition.idle)
  = [Pending; RejectedWith (inr already_started)].
Proof.
  exact (startListening_result_leaves_earlier_calls capable RecognitionObject
           (SharedRecognition.startListening capable (Normal tt) SharedRecognition.idle)
           (Abrupt already_started) (lit "fever") [] [] eq_refl).
Defined.
